(** * PlanetSupercell backend: category tree, orders and stock, reviews, Telegram login

    A shallow embedding of the controllers of the shop backend
    (categoryController.js, orderController.js, reviewController.js,
    productController.js, authController.js) together with the Mongoose
    schemas they rely on, and the properties of the specification that
    concern them.

    Modelling conventions.
    - A MongoDB collection is a finite map from [_id] to document
      ([gmap ObjectId _]); an [ObjectId] is the 96-bit number it denotes.
    - Stock and ordered quantities are whole numbers ([Z]); prices, order
      totals and review ratings are exact rationals ([Q]).  Rounding of
      JavaScript doubles is not modelled.
    - Strings are byte strings; text is taken to be ASCII or well-formed
      UTF-8.
    - A handler is a function from the store (and the request) to the new
      store and the HTTP response it sends.  The recursive helpers of the
      category controller take a fuel argument: [None] stands for a
      recursion that did not finish.
    - How Mongoose treats a query condition on a path the schema does not
      declare depends on its [strictQuery] option, whose default differs
      between versions; the handlers that query take it as an argument. *)

From Stdlib Require Import ZArith NArith QArith Lia Lqa List String Ascii.
From Stdlib Require Import Sorting.Sorted Sorting.Permutation.
Close Scope Q_scope.
From stdpp Require Import gmap list fin_maps.

#[local] Set Warnings "-clear-no-such-hyp".

Import ListNotations.
Local Open Scope string_scope.
Local Open Scope list_scope.
Local Open Scope Z_scope.

Abbreviation ObjectId := N (only parsing).

(** ** Schemas (models/*.js) *)

(** models/Order.js: the five values of the [status] enum. *)
Inductive Status :=
| pending
| paid_pending
| processing
| completed
| refunded.

#[global] Instance Status_eq_dec : EqDecision Status.
Proof. solve_decision. Defined.

Definition status_name (s : Status) : string :=
  match s with
  | pending => "pending"
  | paid_pending => "paid-pending"
  | processing => "processing"
  | completed => "completed"
  | refunded => "refunded"
  end.

(** models/Product.js *)
Record Product := mkProduct {
  p_user : ObjectId;
  p_name : string;
  p_categoryId : ObjectId;
  p_description : string;
  p_image : string;
  p_price : Q;
  p_oldPrice : option Q;
  p_stock : Z;
  p_rating : Q;
  p_numReviews : Z
}.

(** models/Order.js, [OrderItemSchema]: the frozen snapshot of one line. *)
Record OrderItem := mkOrderItem {
  oi_productId : ObjectId;
  oi_name : string;
  oi_quantity : Z;
  oi_price : Q;
  oi_image : string
}.

(** models/Order.js, [OrderSchema]; the owner is stored under [user]. *)
Record Order := mkOrder {
  o_user : ObjectId;
  o_items : list OrderItem;
  o_totalAmount : Q;
  o_status : Status;
  o_screenshotPath : option string;
  o_reviewSubmitted : bool
}.

(** models/Category.js; [c_parentId = None] is a root ([parentId: null]). *)
Record Category := mkCategory {
  c_name : string;
  c_parentId : option ObjectId;
  c_image : string;
  c_description : string
}.

(** models/Review.js *)
Record Review := mkReview {
  rv_user : ObjectId;
  rv_product : ObjectId;
  rv_order : ObjectId;
  rv_authorName : string;
  rv_rating : Q;
  rv_text : string
}.

(** The part of models/User.js that the handlers read from [req.user]. *)
Record User := mkUser {
  u_id : ObjectId;
  u_firstName : string;
  u_username : string;
  u_isAdmin : bool
}.

(** The database: one collection per model. *)
Record Store := mkStore {
  products : gmap N Product;
  orders : gmap N Order;
  categories : gmap N Category;
  reviews : gmap N Review
}.

Definition set_products (f : gmap N Product → gmap N Product) (st : Store) : Store :=
  mkStore (f (products st)) (orders st) (categories st) (reviews st).
Definition set_orders (f : gmap N Order → gmap N Order) (st : Store) : Store :=
  mkStore (products st) (f (orders st)) (categories st) (reviews st).
Definition set_categories (f : gmap N Category → gmap N Category) (st : Store) : Store :=
  mkStore (products st) (orders st) (f (categories st)) (reviews st).
Definition set_reviews (f : gmap N Review → gmap N Review) (st : Store) : Store :=
  mkStore (products st) (orders st) (categories st) (f (reviews st)).

(** Comparison of JavaScript numbers held as rationals. *)
Definition Qltb (a b : Q) : bool := Z.ltb (Qnum a * Zpos (Qden b)) (Qnum b * Zpos (Qden a)).
Definition Qzerob (a : Q) : bool := Z.eqb (Qnum a) 0.

Definition isSpace (c : ascii) : bool :=
  let n := N_of_ascii c in N.eqb n 32 || (N.leb 9 n && N.leb n 13).

Fixpoint trimStart (s : string) : string :=
  match s with
  | String c rest => if isSpace c then trimStart rest else s
  | EmptyString => EmptyString
  end.

Fixpoint trimEnd (s : string) : string :=
  match s with
  | String c rest =>
      match trimEnd rest with
      | EmptyString => if isSpace c then EmptyString else String c EmptyString
      | rest' => String c rest'
      end
  | EmptyString => EmptyString
  end.

(** The [trim: true] setter of the string paths that declare it. *)
Definition trim (s : string) : string := trimEnd (trimStart s).

(** [a || b] on strings: the first non-empty one. *)
Definition orElse (a b : string) : string :=
  if String.eqb a "" then b else a.

(** ** Orders and stock (controllers/orderController.js) *)

Module Orders.

(** One element of [req.body.items]. *)
Record RequestItem := mkRequestItem {
  ri_productId : ObjectId;
  ri_quantity : Z
}.

Inductive Response :=
| EmptyCart                                         (* 400 *)
| ProductNotFound (productId : ObjectId)            (* 404 *)
| InsufficientStock (productId : ObjectId) (availableStock : Z) (* 400 *)
| OrderValidationError                              (* 400, from order.save() *)
| Created (orderId : ObjectId) (o : Order)          (* 201 *)
| BadStatus                                         (* 400 *)
| OrderNotFound                                     (* 404 *)
| Updated (orderId : ObjectId) (o : Order).         (* 200 *)

(** [Product.find({ _id: { $in: productIds } })] turned into the [Map]
    keyed by id that [createOrder] builds (lines 25-29). *)
Definition productMap (db : gmap N Product) (productIds : list N) : gmap N Product :=
  filter (λ kv, kv.1 ∈ productIds) db.

(** The validation loop, lines 31-61: it walks the request items in order,
    stops at the first unresolved or short item, and otherwise accumulates
    the snapshots and the total. *)
Fixpoint checkItems (pm : gmap N Product) (items : list RequestItem)
    (orderItems : list OrderItem) (totalAmount : Q)
  : Response + (list OrderItem * Q) :=
  match items with
  | [] => inr (orderItems, totalAmount)
  | item :: rest =>
      match pm !! ri_productId item with
      | None => inl (ProductNotFound (ri_productId item))
      | Some product =>
          if Z.ltb (p_stock product) (ri_quantity item)
          then inl (InsufficientStock (ri_productId item) (p_stock product))
          else checkItems pm rest
                 (orderItems ++ [mkOrderItem (ri_productId item) (p_name product)
                                   (ri_quantity item) (p_price product) (p_image product)])
                 (totalAmount + p_price product * inject_Z (ri_quantity item))%Q
      end
  end.

(** A product document after [$inc: { stock: d }]. *)
Definition addStock (d : Z) (p : Product) : Product :=
  mkProduct (p_user p) (p_name p) (p_categoryId p) (p_description p)
    (p_image p) (p_price p) (p_oldPrice p) (p_stock p + d)
    (p_rating p) (p_numReviews p).

(** [Product.findByIdAndUpdate(id, { $inc: { stock: d } })]: no document,
    no change; update validators are not run, so the [min: 0] of the
    schema is not enforced here. *)
Definition incStock (id : N) (d : Z) (db : gmap N Product) : gmap N Product :=
  alter (addStock d) id db.

(** The decrement loop, lines 75-81. *)
Definition decrementAll (orderItems : list OrderItem) (db : gmap N Product) : gmap N Product :=
  foldl (λ acc item, incStock (oi_productId item) (- oi_quantity item) acc) db orderItems.

(** The validators that [order.save()] runs on a new document
    (models/Order.js): every line has a name, a quantity of at least 1 and
    a price of at least 0; the total is at least 0. *)
Definition validItem (it : OrderItem) : bool :=
  negb (String.eqb (oi_name it) "") && Z.leb 1 (oi_quantity it) && negb (Qltb (oi_price it) 0).

Definition validOrder (o : Order) : bool :=
  forallb validItem (o_items o) && negb (Qltb (o_totalAmount o) 0).

(** [createOrder], lines 11-105.  [newId] is the [_id] the driver assigns to
    the new document. *)
Definition createOrder (st : Store) (userId newId : ObjectId)
    (items : list RequestItem) (screenshotPath : option string) : Store * Response :=
  match items with
  | [] => (st, EmptyCart)
  | _ =>
      let pm := productMap (products st) (map ri_productId items) in
      match checkItems pm items [] 0%Q with
      | inl failure => (st, failure)
      | inr (orderItems, totalAmount) =>
          let order := mkOrder userId orderItems totalAmount paid_pending screenshotPath false in
          let st1 := set_products (decrementAll orderItems) st in
          if validOrder order
          then (set_orders (insert newId order) st1, Created newId order)
          else (st1, OrderValidationError)
      end
  end.

(** The increment loop of [updateOrderStatus], lines 201-209. *)
Definition restockAll (orderItems : list OrderItem) (db : gmap N Product) : gmap N Product :=
  foldl (λ acc item, incStock (oi_productId item) (oi_quantity item) acc) db orderItems.

Definition validStatuses : list string :=
  ["pending"; "paid-pending"; "processing"; "completed"; "refunded"].

(** The [status] enum of models/Order.js read back from its string. *)
Definition status_of_name (s : string) : option Status :=
  if String.eqb s "pending" then Some pending
  else if String.eqb s "paid-pending" then Some paid_pending
  else if String.eqb s "processing" then Some processing
  else if String.eqb s "completed" then Some completed
  else if String.eqb s "refunded" then Some refunded
  else None.

Definition with_status (o : Order) (s : Status) : Order :=
  mkOrder (o_user o) (o_items o) (o_totalAmount o) s (o_screenshotPath o) (o_reviewSubmitted o).

(** [updateOrderStatus], lines 177-237.  [status] is [req.body.status]
    ([None] when absent). *)
Definition updateOrderStatus (st : Store) (orderId : ObjectId) (status : option string)
  : Store * Response :=
  match status with
  | None => (st, BadStatus)
  | Some newStatus =>
      if String.eqb newStatus "" || negb (existsb (String.eqb newStatus) validStatuses)
      then (st, BadStatus)
      else
        match orders st !! orderId with
        | None => (st, OrderNotFound)
        | Some order =>
            let oldStatus := status_name (o_status order) in
            let st1 :=
              if String.eqb newStatus "refunded" && negb (String.eqb oldStatus "refunded")
              then set_products (restockAll (o_items order)) st
              else st in
            match status_of_name newStatus with
            | Some s =>
                let order' := with_status order s in
                (set_orders (insert orderId order') st1, Updated orderId order')
            | None => (st1, OrderValidationError)
            end
        end
  end.

(** *** Vocabulary of the statements about orders *)

(** The sum of [g] over the lines naming product [pid]. *)
Fixpoint sumFor (g : OrderItem → Z) (pid : N) (l : list OrderItem) : Z :=
  match l with
  | [] => 0
  | it :: rest => (if N.eqb (oi_productId it) pid then g it else 0) + sumFor g pid rest
  end.

(** The quantity ordered of product [pid], over all lines naming it. *)
Definition qtyOf (pid : N) (l : list OrderItem) : Z := sumFor oi_quantity pid l.

(** The snapshot [createOrder] takes of a product for one request line. *)
Definition snapshot (p : Product) (ri : RequestItem) : OrderItem :=
  mkOrderItem (ri_productId ri) (p_name p) (ri_quantity ri) (p_price p) (p_image p).

(** Σ price × quantity over the lines of an order. *)
Fixpoint sumLines (l : list OrderItem) : Q :=
  match l with
  | [] => 0%Q
  | it :: rest => (oi_price it * inject_Z (oi_quantity it) + sumLines rest)%Q
  end.

(** A request line that resolves and is covered by the stock. *)
Definition lineOk (db : gmap N Product) (ri : RequestItem) : Prop :=
  ∃ p, db !! ri_productId ri = Some p ∧ ri_quantity ri <= p_stock p.

(** A request line asking for more than the stock of its product. *)
Definition lineShort (db : gmap N Product) (ri : RequestItem) : Prop :=
  ∃ p, db !! ri_productId ri = Some p ∧ p_stock p < ri_quantity ri.

(** *** Reading one order *)

Inductive ReadResponse :=
| ReadNotFound                                   (* 404 *)
| Forbidden                                      (* 403 *)
| ServerError                                    (* 500 *)
| Found (o : Order) (owner : option User).       (* 200 *)

(** [getOrderById], lines 144-171.  [users] is the users collection that
    [populate('user', ...)] reads: when the owner is no longer stored the
    populated field is null, and reading its [_id] throws, which the
    [catch] answers with 500. *)
Definition getOrderById (st : Store) (users : gmap N User) (user : User)
    (orderId : ObjectId) : ReadResponse :=
  match orders st !! orderId with
  | None => ReadNotFound
  | Some order =>
      let owner := users !! o_user order in
      if u_isAdmin user then Found order owner
      else
        match owner with
        | None => ServerError
        | Some _ =>
            if negb (N.eqb (o_user order) (u_id user)) then Forbidden
            else Found order owner
        end
  end.


End Orders.

(** ** Products (controllers/productController.js) *)

Module Products.

(** The body of [PUT /api/products/:id]; [None] is an absent field, and
    [ur_oldPrice = Some None] is an explicit [null]. *)
Record UpdateRequest := mkUpdateRequest {
  ur_name : option string;
  ur_price : option Q;
  ur_description : option string;
  ur_image : option string;
  ur_stock : option Z;
  ur_categoryId : option ObjectId;
  ur_oldPrice : option (option Q)
}.

Inductive Response :=
| NotFound                   (* 404 *)
| BadPrice                   (* 400 *)
| BadStock                   (* 400 *)
| BadOldPrice                (* 400 *)
| OldPriceNotAbovePrice      (* 400 *)
| CategoryMissing            (* 400 *)
| ValidationError            (* product.save() rejected the document *)
| Saved (p : Product).       (* 200 *)

(** [oldPrice ? Number(oldPrice) : null] *)
Definition truthyOldPrice (o : option Q) : option Q :=
  match o with
  | Some q => if Qzerob q then None else Some q
  | None => None
  end.

(** The validators of models/Product.js that [save()] runs. *)
Definition validProduct (p : Product) : bool :=
  negb (String.eqb (p_name p) "")
  && negb (Qltb (p_price p) (1 # 100))
  && match p_oldPrice p with Some o => negb (Qltb o 0) | None => true end
  && Z.leb 0 (p_stock p).


Inductive CreateResponse :=
| CreateMissingFields        (* 400 *)
| CreateBadPrice             (* 400 *)
| CreateBadStock             (* 400 *)
| CreateBadOldPrice          (* 400 *)
| CreateOldPriceNotAbove     (* 400 *)
| CreateCategoryMissing      (* 400 *)
| CreateValidationError      (* product.save() rejected the document *)
| ProductCreated (productId : ObjectId) (p : Product).  (* 201 *)

(** [createProduct] (productController.js).  The body has
    the fields of [UpdateRequest]; [adminId] is [req.user.id] and [newId]
    the [_id] given to the new document.  The [name] and [description]
    paths of the schema trim what they are given. *)
Definition createProduct (st : Store) (adminId newId : ObjectId) (rq : UpdateRequest)
  : Store * CreateResponse :=
  let stock := default 0 (ur_stock rq) in
  let oldPrice := default None (ur_oldPrice rq) in
  match ur_name rq, ur_price rq, ur_categoryId rq with
  | Some name, Some price, Some categoryId =>
      if String.eqb name "" || Qzerob price then (st, CreateMissingFields)
      else if negb (Qltb 0 price) then (st, CreateBadPrice)
      else if Z.ltb stock 0 then (st, CreateBadStock)
      else if match oldPrice with Some o => Qltb o 0 | None => false end
      then (st, CreateBadOldPrice)
      else if match oldPrice with Some o => negb (Qltb price o) | None => false end
      then (st, CreateOldPriceNotAbove)
      else
        match categories st !! categoryId with
        | None => (st, CreateCategoryMissing)
        | Some _ =>
            let product :=
              mkProduct adminId (trim name) categoryId
                (trim (default "" (ur_description rq)))
                (default "" (ur_image rq))
                price (truthyOldPrice oldPrice) stock 0 0 in
            if validProduct product
            then (set_products (insert newId product) st, ProductCreated newId product)
            else (st, CreateValidationError)
        end
  | _, _, _ => (st, CreateMissingFields)
  end.

Inductive DeleteResponse :=
| DeleteNotFound                                      (* 404 *)
| InActiveOrder (orderId : ObjectId)                  (* 400 *)
| ProductDeleted (name : string) (deletedReviews : Z). (* 200 *)

(** An order that names the product and is neither completed nor
    refunded: the filter of the [Order.findOne] in [deleteProduct]. *)
Definition activeOrderOf (productId : ObjectId) (o : Order) : bool :=
  existsb (λ it, N.eqb productId (oi_productId it)) (o_items o)
  && negb (existsb (String.eqb (status_name (o_status o))) ["completed"; "refunded"]).

(** [deleteProduct] (productController.js). *)
Definition deleteProduct (st : Store) (productId : ObjectId) : Store * DeleteResponse :=
  match products st !! productId with
  | None => (st, DeleteNotFound)
  | Some product =>
      match head (List.filter (λ kv, activeOrderOf productId kv.2) (map_to_list (orders st))) with
      | Some activeOrdersExist => (st, InActiveOrder activeOrdersExist.1)
      | None =>
          let remaining := filter (λ kv, ¬ rv_product kv.2 = productId) (reviews st) in
          let deletedCount :=
            Z.of_nat (size (filter (λ kv, rv_product kv.2 = productId) (reviews st))) in
          (mkStore (delete productId (products st)) (orders st) (categories st) remaining,
           ProductDeleted (p_name product) deletedCount)
      end
  end.

(** Every product sits in a stored category. *)
Definition categoriesResolve (st : Store) : Prop :=
  ∀ k p, products st !! k = Some p → is_Some (categories st !! p_categoryId p).


End Products.

(** ** Category tree (controllers/categoryController.js) *)

Module Categories.

Inductive Response :=
| NotFound                                                        (* 404 *)
| NameRequired                                                    (* 400 *)
| ParentMissing (parentId : ObjectId)                             (* 400 *)
| SelfParent                                                      (* 400 *)
| CyclicParent                                                    (* 400 *)
| ValidationError                                   (* category.save() rejected *)
| Saved (categoryId : ObjectId) (c : Category)                    (* 201, 200 *)
| Deleted (name : string) (subcategories : Z) (deletedProducts : Z). (* 200 *)

(** The body of [POST] and [PUT /api/categories]; [None] is an absent
    field, and [cr_parentId = Some None] is [null] or the empty string. *)
Record Request := mkRequest {
  cr_name : option string;
  cr_parentId : option (option ObjectId);
  cr_image : option string
}.

(** The validator of models/Category.js that [save()] runs: a name is
    required. *)
Definition validCategory (c : Category) : bool := negb (String.eqb (c_name c) "").

(** [Category.find({ parentId: parentId }).select('_id')] *)
Definition childrenOf (cats : gmap N Category) (parentId : N) : list N :=
  (map_to_list (filter (λ kv, c_parentId kv.2 = Some parentId) cats)).*1.

(** The [for] loop of [getAllDescendantIds], lines 13-18; [rec] is the
    recursive call. *)
Fixpoint collectLoop (rec : N → option (list N)) (children : list N) (ids : list N)
  : option (list N) :=
  match children with
  | [] => Some ids
  | child :: rest =>
      match rec child with
      | None => None
      | Some descendantIds => collectLoop rec rest ((ids ++ [child]) ++ descendantIds)
      end
  end.

(** [getAllDescendantIds], lines 9-20. *)
Fixpoint getAllDescendantIds (fuel : nat) (cats : gmap N Category) (parentId : N)
  : option (list N) :=
  match fuel with
  | O => None
  | S n => collectLoop (getAllDescendantIds n cats) (childrenOf cats parentId) []
  end.

(** [isDescendant], lines 23-36; [potentialChildId = None] is a null or
    undefined id. *)
Fixpoint isDescendant (fuel : nat) (cats : gmap N Category)
    (potentialChildId : option N) (ancestorId : N) : option bool :=
  match fuel with
  | O => None
  | S n =>
      match potentialChildId with
      | None => Some false
      | Some pc =>
          if N.eqb pc ancestorId then Some true
          else
            match cats !! pc with
            | None => Some false
            | Some child =>
                match c_parentId child with
                | None => Some false
                | Some parent =>
                    if N.eqb parent ancestorId then Some true
                    else isDescendant n cats (Some parent) ancestorId
                end
            end
      end
  end.

(** [createCategory], lines 66-99; [newId] is the [_id] given to the new
    document. *)
Definition createCategory (st : Store) (newId : ObjectId) (rq : Request)
  : Store * Response :=
  let name := default "" (cr_name rq) in
  if String.eqb name "" then (st, NameRequired)
  else
    let missingParent :=
      match cr_parentId rq with
      | Some (Some parentId) =>
          match categories st !! parentId with
          | None => Some parentId
          | Some _ => None
          end
      | _ => None
      end in
    match missingParent with
    | Some parentId => (st, ParentMissing parentId)
    | None =>
        let category :=
          mkCategory (trim name) (default None (cr_parentId rq))
            (default "" (cr_image rq)) "" in
        if validCategory category
        then (set_categories (insert newId category) st, Saved newId category)
        else (st, ValidationError)
    end.

(** [updateCategory], lines 104-145. *)
Definition updateCategory (fuel : nat) (st : Store) (categoryId : ObjectId) (rq : Request)
  : option (Store * Response) :=
  match categories st !! categoryId with
  | None => Some (st, NotFound)
  | Some category =>
      let save parentId :=
        let category' :=
          mkCategory (trim (orElse (default "" (cr_name rq)) (c_name category)))
            parentId (default (c_image category) (cr_image rq))
            (c_description category) in
        if validCategory category'
        then (set_categories (insert categoryId category') st, Saved categoryId category')
        else (st, ValidationError) in
      match cr_parentId rq with
      | Some (Some parentId) =>
          if N.eqb parentId categoryId then Some (st, SelfParent)
          else
            match isDescendant fuel (categories st) (Some parentId) categoryId with
            | None => None
            | Some true => Some (st, CyclicParent)
            | Some false =>
                match categories st !! parentId with
                | None => Some (st, ParentMissing parentId)
                | Some _ => Some (save (Some parentId))
                end
            end
      | Some None => Some (save None)
      | None => Some (save (c_parentId category))
      end
  end.

(** [Model.deleteMany(filter)]: the remaining documents and [deletedCount]. *)
Definition deleteMany {A} (P : N * A → Prop) `{!∀ x, Decision (P x)} (m : gmap N A)
  : gmap N A * Z :=
  (filter (λ kv, ¬ P kv) m, Z.of_nat (size (filter P m))).

(** [deleteCategory], lines 150-185. *)
Definition deleteCategory (fuel : nat) (st : Store) (categoryId : N)
  : option (Store * Response) :=
  match categories st !! categoryId with
  | None => Some (st, NotFound)
  | Some category =>
      match getAllDescendantIds fuel (categories st) categoryId with
      | None => None
      | Some descendantIds =>
          let allCategoryIdsToDelete := categoryId :: descendantIds in
          let deleteProductResult :=
            deleteMany (λ kv, p_categoryId kv.2 ∈ allCategoryIdsToDelete) (products st) in
          let deleteCategoryResult :=
            deleteMany (λ kv, kv.1 ∈ allCategoryIdsToDelete) (categories st) in
          Some (mkStore deleteProductResult.1 (orders st) deleteCategoryResult.1 (reviews st),
                Deleted (c_name category) (deleteCategoryResult.2 - 1) deleteProductResult.2)
      end
  end.

(** *** Vocabulary of the statements about the tree *)

(** [x] is a stored category whose [parentId] is [c]. *)
Definition isChild (cats : gmap N Category) (x c : N) : Prop :=
  ∃ cat, cats !! x = Some cat ∧ c_parentId cat = Some c.

(** Transitive child expansion over [parentId]. *)
Inductive descendant (cats : gmap N Category) : N → N → Prop :=
| desc_child x c : isChild cats x c → descendant cats x c
| desc_deeper x d c : isChild cats d c → descendant cats x d → descendant cats x c.

(** The set [{c} ∪ descendants(c)]. *)
Definition inSubtree (cats : gmap N Category) (c x : N) : Prop :=
  x = c ∨ descendant cats x c.

(** The invariant of the data model: no [parentId] chain comes back to
    its start. *)
Definition acyclic (cats : gmap N Category) : Prop :=
  ∀ x, ¬ descendant cats x x.



(** The same, required only of [c] and of the categories below it. *)
Definition acyclicBelow (cats : gmap N Category) (c : N) : Prop :=
  ∀ x, inSubtree cats c x → ¬ descendant cats x x.

End Categories.

(** ** Reviews (controllers/reviewController.js) *)

Module Reviews.

(** The body of [POST /api/reviews]; [None] is an absent field. *)
Record Request := mkRequest {
  rq_productId : option ObjectId;
  rq_orderId : option ObjectId;
  rq_rating : option Q;
  rq_text : option string
}.

Inductive Response :=
| MissingFields          (* 400 *)
| BadRating              (* 400 *)
| ProductNotFound        (* 404 *)
| NotEligible            (* 403 *)
| OrderAlreadyReviewed   (* 400 *)
| DuplicateReview        (* 400 *)
| Created (reviewId : ObjectId) (r : Review).  (* 201 *)

(** The value of an equality condition in a query filter. *)
Inductive QueryValue :=
| QId (id : ObjectId)
| QStr (s : string)
| QBool (b : bool).

(** The paths declared by [OrderSchema] (models/Order.js), with the [_id]
    and the timestamps Mongoose adds. *)
Definition orderSchemaPaths : list string :=
  ["_id"; "user"; "items"; "items.productId"; "items.name"; "items.quantity";
   "items.price"; "items.image"; "totalAmount"; "status"; "screenshotPath";
   "reviewSubmitted"; "createdAt"; "updatedAt"].

(** An equality condition on a path of the schema, evaluated on a stored
    order.  A condition on an array path holds when some element meets it. *)
Definition orderCondition (path : string) (v : QueryValue) (id : ObjectId) (o : Order) : bool :=
  match v with
  | QId i =>
      if String.eqb path "_id" then N.eqb i id
      else if String.eqb path "user" then N.eqb i (o_user o)
      else if String.eqb path "items.productId"
           then existsb (λ it, N.eqb i (oi_productId it)) (o_items o)
      else false
  | QStr s =>
      if String.eqb path "status" then String.eqb s (status_name (o_status o))
      else if String.eqb path "items.name"
           then existsb (λ it, String.eqb s (oi_name it)) (o_items o)
      else if String.eqb path "items.image"
           then existsb (λ it, String.eqb s (oi_image it)) (o_items o)
      else if String.eqb path "screenshotPath"
           then match o_screenshotPath o with Some p => String.eqb s p | None => false end
      else false
  | QBool b =>
      if String.eqb path "reviewSubmitted" then Bool.eqb b (o_reviewSubmitted o)
      else false
  end.

(** Whether a stored order meets a filter.  A condition on a path that the
    schema does not declare is removed from the filter when [strictQuery]
    is on (the Mongoose 6 default); when it is off the condition is sent to
    the database, where no stored order has such a field, so it fails. *)
Definition orderMatches (strictQuery : bool) (filter : list (string * QueryValue))
    (id : ObjectId) (o : Order) : bool :=
  forallb (λ c, if existsb (String.eqb c.1) orderSchemaPaths
                then orderCondition c.1 c.2 id o
                else strictQuery) filter.

(** [Order.findOne(filter)] *)
Definition Order_findOne (strictQuery : bool) (filter : list (string * QueryValue))
    (db : gmap N Order) : option (N * Order) :=
  head (List.filter (λ kv, orderMatches strictQuery filter kv.1 kv.2) (map_to_list db)).

(** [Review.findOne({ product: productId, user: userId })] *)
Definition Review_findOne (productId userId : ObjectId) (db : gmap N Review)
  : option (N * Review) :=
  head (List.filter (λ kv, N.eqb (rv_product kv.2) productId && N.eqb (rv_user kv.2) userId)
          (map_to_list db)).

Definition markReviewed (o : Order) : Order :=
  mkOrder (o_user o) (o_items o) (o_totalAmount o) (o_status o) (o_screenshotPath o) true.

(** [createReview], lines 12-87.  [user] is [req.user]; [newId] is the
    [_id] given to the new review. *)
Definition createReview (strictQuery : bool) (st : Store) (user : User) (newId : ObjectId)
    (rq : Request) : Store * Response :=
  let userId := u_id user in
  match rq_productId rq, rq_orderId rq, rq_rating rq with
  | Some productId, Some orderId, Some rating =>
      if Qzerob rating then (st, MissingFields)
      else if Qltb rating 1 || Qltb 5 rating then (st, BadRating)
      else
        match products st !! productId with
        | None => (st, ProductNotFound)
        | Some product =>
            match Order_findOne strictQuery
                    [("_id", QId orderId); ("userId", QId userId);
                     ("status", QStr "completed"); ("items.productId", QId productId)]
                    (orders st) with
            | None => (st, NotEligible)
            | Some (oid, order) =>
                if o_reviewSubmitted order then (st, OrderAlreadyReviewed)
                else
                  match Review_findOne productId userId (reviews st) with
                  | Some _ => (st, DuplicateReview)
                  | None =>
                      let review :=
                        mkReview userId productId orderId
                          (orElse (u_firstName user) (orElse (u_username user) "Аноним"))
                          rating
                          (trim (default "" (rq_text rq))) in
                      (set_orders (insert oid (markReviewed order))
                         (set_reviews (insert newId review) st),
                       Created newId review)
                  end
            end
        end
  | _, _, _ => (st, MissingFields)
  end.

Inductive DeleteResponse :=
| ReviewNotFound     (* 404 *)
| ReviewDeleted.     (* 200 *)

(** [deleteReview], lines 132-171: the review goes; the order it was
    written under is read but left as it is. *)
Definition deleteReview (st : Store) (reviewId : ObjectId) : Store * DeleteResponse :=
  match reviews st !! reviewId with
  | None => (st, ReviewNotFound)
  | Some review => (set_reviews (delete reviewId) st, ReviewDeleted)
  end.


End Reviews.

(** ** Telegram login (controllers/authController.js) *)

Module Auth.

Local Open Scope N_scope.

(** *** [crypto.createHmac('sha256', key).update(msg).digest()]

    Node's HMAC (RFC 2104) over SHA-256 (FIPS 180-4), on bytes held as
    numbers below 256.  A JavaScript string given as key or message stands
    for its bytes. *)

Definition mask32 : N := 0xFFFFFFFF.
Definition add32 (a b : N) : N := N.land (a + b) mask32.
Definition rotr (n x : N) : N :=
  N.lor (N.shiftr x n) (N.land (N.shiftl x (32 - n)) mask32).
Definition Ch (x y z : N) : N := N.lxor (N.land x y) (N.land (N.lxor x mask32) z).
Definition Maj (x y z : N) : N :=
  N.lxor (N.lxor (N.land x y) (N.land x z)) (N.land y z).
Definition bigSigma0 (x : N) : N := N.lxor (N.lxor (rotr 2 x) (rotr 13 x)) (rotr 22 x).
Definition bigSigma1 (x : N) : N := N.lxor (N.lxor (rotr 6 x) (rotr 11 x)) (rotr 25 x).
Definition smallSigma0 (x : N) : N := N.lxor (N.lxor (rotr 7 x) (rotr 18 x)) (N.shiftr x 3).
Definition smallSigma1 (x : N) : N := N.lxor (N.lxor (rotr 17 x) (rotr 19 x)) (N.shiftr x 10).

(** The first sixty-four primes. *)
Definition primes64 : list N :=
  [2; 3; 5; 7; 11; 13; 17; 19; 23; 29; 31; 37; 41; 43; 47; 53;
   59; 61; 67; 71; 73; 79; 83; 89; 97; 101; 103; 107; 109; 113; 127; 131;
   137; 139; 149; 151; 157; 163; 167; 173; 179; 181; 191; 193; 197; 199; 211; 223;
   227; 229; 233; 239; 241; 251; 257; 263; 269; 271; 277; 281; 283; 293; 307; 311].

(** The largest [r] below [2 ^ bits] with [r ^ k <= n], one bit at a time. *)
Fixpoint rootBits (k : N) (bits : nat) (n r : N) : N :=
  match bits with
  | O => r
  | S b =>
      let c := r + 2 ^ N.of_nat b in
      rootBits k b n (if c ^ k <=? n then c else r)
  end.

(** The first thirty-two bits of the fractional part of the [k]-th root
    of [p]. *)
Definition fracRoot (k p : N) : N :=
  N.land (rootBits k 40 (p * 2 ^ (32 * k)) 0) mask32.

(** The round constants (cube roots of the primes) and the initial hash
    value (square roots of the first eight). *)
Definition K256 : list N := Eval vm_compute in map (fracRoot 3) primes64.
Definition H256 : list N := Eval vm_compute in map (fracRoot 2) (firstn 8 primes64).

(** The message schedule: [n] more words after those of [w]. *)
Fixpoint extendSchedule (n : nat) (w : list N) : list N :=
  match n with
  | O => w
  | S n' =>
      let back i := nth (length w - i)%nat w 0 in
      extendSchedule n'
        (w ++ [add32 (add32 (smallSigma1 (back 2%nat)) (back 7%nat))
                     (add32 (smallSigma0 (back 15%nat)) (back 16%nat))])
  end.

Definition round (s : N * N * N * N * N * N * N * N) (kw : N * N)
  : N * N * N * N * N * N * N * N :=
  let '(a, b, c, d, e, f, g, h) := s in
  let t1 := add32 (add32 (add32 (add32 h (bigSigma1 e)) (Ch e f g)) kw.1) kw.2 in
  let t2 := add32 (bigSigma0 a) (Maj a b c) in
  (add32 t1 t2, a, b, c, add32 d t1, e, f, g).

Definition compress (hs : list N) (block : list N) : list N :=
  match hs with
  | [h0; h1; h2; h3; h4; h5; h6; h7] =>
      let '(a, b, c, d, e, f, g, h) :=
        fold_left round (combine K256 (extendSchedule 48 block))
          (h0, h1, h2, h3, h4, h5, h6, h7) in
      [add32 h0 a; add32 h1 b; add32 h2 c; add32 h3 d;
       add32 h4 e; add32 h5 f; add32 h6 g; add32 h7 h]
  | _ => hs
  end.

Fixpoint wordsOf (bytes : list N) : list N :=
  match bytes with
  | b0 :: b1 :: b2 :: b3 :: rest =>
      (N.shiftl b0 24 + N.shiftl b1 16 + N.shiftl b2 8 + b3) :: wordsOf rest
  | _ => []
  end.

Definition be32 (w : N) : list N :=
  [N.land (N.shiftr w 24) 255; N.land (N.shiftr w 16) 255;
   N.land (N.shiftr w 8) 255; N.land w 255].

Definition pad (msg : list N) : list N :=
  let l := N.of_nat (length msg) in
  msg ++ [128] ++ repeat 0 (N.to_nat ((119 - l mod 64) mod 64))
      ++ be32 (N.shiftr (8 * l) 32) ++ be32 (N.land (8 * l) mask32).

Fixpoint hashBlocks (n : nat) (hs : list N) (words : list N) : list N :=
  match n with
  | O => hs
  | S n' => hashBlocks n' (compress hs (firstn 16 words)) (skipn 16 words)
  end.

Definition sha256 (msg : list N) : list N :=
  let p := pad msg in
  flat_map be32 (hashBlocks (length p / 64) H256 (wordsOf p)).

Definition hmacSha256 (key msg : list N) : list N :=
  let k0 := if Nat.ltb 64 (length key) then sha256 key else key in
  let k := k0 ++ repeat 0 (64 - length k0)%nat in
  sha256 (map (N.lxor 0x5c) k ++ sha256 (map (N.lxor 0x36) k ++ msg)).

Definition bytesOf (s : string) : list N := map N_of_ascii (list_ascii_of_string s).

Definition hexDigit (n : N) : ascii :=
  ascii_of_N (if n <? 10 then 48 + n else 87 + n).

(** [digest('hex')] *)
Fixpoint hex (bytes : list N) : string :=
  match bytes with
  | [] => EmptyString
  | b :: rest => String (hexDigit (b / 16)) (String (hexDigit (b mod 16)) (hex rest))
  end.

(** *** [new URLSearchParams(initData)]

    The application/x-www-form-urlencoded parser: the input is cut at
    every ampersand, each non-empty piece at its first equals sign, plus
    signs become spaces and percent escapes become the bytes they name.
    The decoded bytes are taken to be well-formed UTF-8. *)

Fixpoint splitOn (sep : ascii) (s : string) : list string :=
  match s with
  | EmptyString => [EmptyString]
  | String c rest =>
      if Ascii.eqb c sep then EmptyString :: splitOn sep rest
      else match splitOn sep rest with
           | [] => [String c EmptyString]
           | piece :: pieces => String c piece :: pieces
           end
  end.

Fixpoint cutAtFirst (sep : ascii) (s : string) : string * string :=
  match s with
  | EmptyString => (EmptyString, EmptyString)
  | String c rest =>
      if Ascii.eqb c sep then (EmptyString, rest)
      else let nv := cutAtFirst sep rest in (String c nv.1, nv.2)
  end.

Definition hexVal (c : ascii) : option N :=
  let n := N_of_ascii c in
  if (48 <=? n) && (n <=? 57) then Some (n - 48)
  else if (65 <=? n) && (n <=? 70) then Some (n - 55)
  else if (97 <=? n) && (n <=? 102) then Some (n - 87)
  else None.

Fixpoint percentDecode (s : string) : string :=
  match s with
  | EmptyString => EmptyString
  | String c rest =>
      let keep := String (if Ascii.eqb c "+" then " "%char else c) (percentDecode rest) in
      if Ascii.eqb c "%" then
        match rest with
        | String hi (String lo rest') =>
            match hexVal hi, hexVal lo with
            | Some a, Some b => String (ascii_of_N (16 * a + b)) (percentDecode rest')
            | _, _ => keep
            end
        | _ => keep
        end
      else keep
  end.

Definition URLSearchParams (init : string) : list (string * string) :=
  map (λ piece, let nv := cutAtFirst "=" piece in (percentDecode nv.1, percentDecode nv.2))
    (List.filter (λ piece, negb (String.eqb piece "")) (splitOn "&" init)).

(** [params.get(name)]: the value of the first pair with that name. *)
Fixpoint get (name : string) (params : list (string * string)) : option string :=
  match params with
  | [] => None
  | kv :: rest => if String.eqb kv.1 name then Some kv.2 else get name rest
  end.

(** *** [validateTelegramData], lines 139-169 *)

(** [Array.prototype.sort()] on strings: ascending in code-unit order. *)
Fixpoint insertSorted (x : string) (l : list string) : list string :=
  match l with
  | [] => [x]
  | y :: rest => if String.leb x y then x :: l else y :: insertSorted x rest
  end.

Definition sort (l : list string) : list string := fold_right insertSorted [] l.

Definition newline : string := String (ascii_of_N 10) EmptyString.

(** [`${key}=${value}`] *)
Definition pairString (kv : string * string) : string := kv.1 ++ "=" ++ kv.2.

Definition notHash (kv : string * string) : bool := negb (String.eqb kv.1 "hash").

(** The loop of lines 146-152 followed by the sort and the join. *)
Definition dataCheckString (params : list (string * string)) : string :=
  String.concat newline (sort (map pairString (List.filter notHash params))).

Definition validateTelegramData (initData botToken : string) : bool :=
  let params := URLSearchParams initData in
  match get "hash" params with
  | None => false
  | Some hash =>
      if String.eqb hash "" then false
      else
        let secretKey := hmacSha256 (bytesOf "WebAppData") (bytesOf botToken) in
        let calculatedHash := hex (hmacSha256 secretKey (bytesOf (dataCheckString params))) in
        String.eqb calculatedHash hash
  end.

(** *** Vocabulary of the statements about the verification *)

(** Code-unit order on strings, and the same order on the keys of pairs. *)
Definition strLe (a b : string) : Prop := String.leb a b = true.
Definition keyLe (a b : string * string) : Prop := String.leb a.1 b.1 = true.

(** Every character of the key sorts above the equals sign (as letters and
    the underscore do). *)
Fixpoint aboveEquals (k : string) : bool :=
  match k with
  | EmptyString => true
  | String c rest => Ascii.ltb "=" c && aboveEquals rest
  end.

(** *** The verification as the specification words it

    The secret is the HMAC over the literal ["WebAppData"] keyed by the bot
    token, and the pairs are ordered by their keys. *)

Fixpoint insertByKey (x : string * string) (l : list (string * string))
  : list (string * string) :=
  match l with
  | [] => [x]
  | y :: rest => if String.leb x.1 y.1 then x :: l else y :: insertByKey x rest
  end.

Definition validateAsWorded (initData botToken : string) : bool :=
  let params := URLSearchParams initData in
  match get "hash" params with
  | None => false
  | Some hash =>
      let pairs := fold_right insertByKey [] (List.filter notHash params) in
      let secret := hmacSha256 (bytesOf botToken) (bytesOf "WebAppData") in
      String.eqb (hex (hmacSha256 secret
                         (bytesOf (String.concat newline (map pairString pairs))))) hash
  end.

End Auth.

(** ** Sample data used by the concrete evaluations below *)

Module Sample.

Definition gem : Product :=
  mkProduct 100 "Gem pack" 10 "" "gem.png" (199 # 2) None 5 0 0.

Definition pass : Product :=
  mkProduct 100 "Season pass" 11 "" "" (450 # 1) None 2 0 0.

(** Two products, ids 1 and 2: five gem packs and two passes in stock. *)
Definition shop : Store :=
  mkStore (<[1%N := gem]> (<[2%N := pass]> ∅)) ∅ ∅ ∅.

(** A catalogue with a tree of categories: 10 is a root with child 11 and
    grandchild 12; 13 is another root.  Product 3 sits in category 13. *)
Definition tree : gmap N Category :=
  <[10%N := mkCategory "Games" None "" ""]>
  (<[11%N := mkCategory "Brawl" (Some 10%N) "" ""]>
  (<[12%N := mkCategory "Skins" (Some 11%N) "" ""]>
  (<[13%N := mkCategory "Merch" None "" ""]> ∅))).

Definition shirt : Product :=
  mkProduct 100 "T-shirt" 13 "" "" (1500 # 1) None 4 0 0.

Definition skin : Product :=
  mkProduct 100 "Skin" 12 "" "" (300 # 1) None 9 0 0.

Definition catalog : Store :=
  mkStore (<[1%N := gem]> (<[2%N := pass]> (<[3%N := shirt]> (<[4%N := skin]> ∅)))) ∅ tree ∅.

(** Two categories that name each other as parent. *)
Definition loop : gmap N Category :=
  <[1%N := mkCategory "A" (Some 2%N) "" ""]>
  (<[2%N := mkCategory "B" (Some 1%N) "" ""]> ∅).

(** The end-to-end scenario of the specification: three gem packs are
    ordered (stock 5 becomes 2) and the order is moved to [processing]. *)
Definition placed : Store :=
  (Orders.createOrder shop 7 50 [Orders.mkRequestItem 1 3] None).1.

Definition processingShop : Store :=
  (Orders.updateOrderStatus placed 50 (Some "processing")).1.

(** The login payload with its fields in another order. *)
Definition initDataReordered : string :=
  "user=%7B%22id%22%3A42%2C%22first_name%22%3A%22Ann%22%7D&hash=87dc49a5ea9f90300f6d92e89a51355942259638f7d7c9af654bccdb307b597f&query_id=AAHdF6IQAAAAAN0XohDhrOrc&auth_date=1700000000".

(** The same order once delivered. *)
Definition completedShop : Store :=
  (Orders.updateOrderStatus placed 50 (Some "completed")).1.

Definition alice : User := mkUser 7 "Alice" "alice" false.
Definition bob : User := mkUser 8 "" "bob" false.

(** A login payload as the Telegram client sends it, signed for [botToken]
    the way Telegram signs. *)
Definition botToken : string := "123456:ABC-DEF1234ghIkl-zyx57W2v1u123ew11".

Definition initData : string :=
  "query_id=AAHdF6IQAAAAAN0XohDhrOrc&user=%7B%22id%22%3A42%2C%22first_name%22%3A%22Ann%22%7D&auth_date=1700000000&hash=87dc49a5ea9f90300f6d92e89a51355942259638f7d7c9af654bccdb307b597f".

Definition gemOrder (s : Status) : Order :=
  mkOrder 7 [mkOrderItem 1 "Gem pack" 3 (199 # 2) "gem.png"] (597 # 2) s None false.

End Sample.

(** * Properties *)

(** ** Orders and stock *)

Section OrderFacts.

Import Orders.

Lemma addStock_0 p : addStock 0 p = p.
Proof. destruct p; unfold addStock; simpl. f_equal. lia. Qed.

Lemma addStock_addStock a b p : addStock b (addStock a p) = addStock (a + b) p.
Proof. destruct p; unfold addStock; simpl. f_equal. lia. Qed.

Lemma lookup_incStock id d (db : gmap N Product) k :
  incStock id d db !! k = (if N.eqb id k then addStock d else (λ p, p)) <$> db !! k.
Proof.
  unfold incStock. destruct (N.eqb_spec id k) as [->|Hne].
  - apply lookup_alter_eq.
  - rewrite lookup_alter_ne by done. by destruct (db !! k).
Qed.

Lemma sumFor_app g pid l1 l2 : sumFor g pid (l1 ++ l2) = sumFor g pid l1 + sumFor g pid l2.
Proof. induction l1 as [|x l1 IH]; simpl; lia. Qed.

Lemma sumFor_opp pid l : sumFor (λ it, - oi_quantity it) pid l = - qtyOf pid l.
Proof.
  unfold qtyOf. induction l as [|x l IH]; simpl; [done|].
  rewrite IH. destruct (N.eqb (oi_productId x) pid); lia.
Qed.

(** A loop of [$inc] updates moves each stock by the sum of the increments
    of the lines naming that product. *)
Lemma lookup_incLoop (g : OrderItem → Z) (l : list OrderItem) (db : gmap N Product) k :
  foldl (λ acc item, incStock (oi_productId item) (g item) acc) db l !! k
  = addStock (sumFor g k l) <$> db !! k.
Proof.
  revert db. induction l as [|it l IH]; intros db; simpl.
  - destruct (db !! k) as [p|]; simpl; [|done]. by rewrite addStock_0.
  - rewrite IH, lookup_incStock.
    destruct (db !! k) as [p|]; simpl; [|done].
    f_equal. destruct (N.eqb (oi_productId it) k); [|done].
    by rewrite addStock_addStock.
Qed.

Lemma lookup_restockAll l (db : gmap N Product) k :
  restockAll l db !! k = addStock (qtyOf k l) <$> db !! k.
Proof. apply (lookup_incLoop oi_quantity). Qed.

Lemma lookup_decrementAll l (db : gmap N Product) k :
  decrementAll l db !! k = addStock (- qtyOf k l) <$> db !! k.
Proof.
  rewrite <- sumFor_opp. apply (lookup_incLoop (λ it, - oi_quantity it)).
Qed.

(** *** The validation loop *)

Lemma productMap_lookup (db : gmap N Product) ids k :
  k ∈ ids → productMap db ids !! k = db !! k.
Proof.
  intros Hk. unfold productMap. destruct (db !! k) as [p|] eqn:E.
  - by apply map_lookup_filter_Some.
  - apply map_lookup_filter_None. left. done.
Qed.

Lemma checkItems_ext (pm db : gmap N Product) items acc t :
  (∀ it, it ∈ items → pm !! ri_productId it = db !! ri_productId it) →
  checkItems pm items acc t = checkItems db items acc t.
Proof.
  revert acc t. induction items as [|it items IH]; intros acc t H; simpl; [done|].
  rewrite (H it) by (left; done).
  destruct (db !! ri_productId it) as [p|]; [|done].
  destruct (p_stock p <? ri_quantity it); [done|].
  apply IH. intros it' Hin. apply H. by right.
Qed.

Lemma checkItems_productMap (db : gmap N Product) items acc t :
  checkItems (productMap db (map ri_productId items)) items acc t = checkItems db items acc t.
Proof.
  apply checkItems_ext. intros it Hin. apply productMap_lookup.
  apply list_elem_of_In, in_map, list_elem_of_In, Hin.
Qed.

Lemma checkItems_inr (db : gmap N Product) items acc t ois tot :
  checkItems db items acc t = inr (ois, tot) →
  ∃ news, ois = acc ++ news
    ∧ Forall2 (λ ri oi, ∃ p, db !! ri_productId ri = Some p
                          ∧ ri_quantity ri <= p_stock p ∧ oi = snapshot p ri) items news
    ∧ (tot == t + sumLines news)%Q.
Proof.
  revert acc t. induction items as [|it items IH]; intros acc t; simpl.
  - intros [= <- <-]. exists []. rewrite app_nil_r. split; [done|]. split; [constructor|].
    simpl. lra.
  - destruct (db !! ri_productId it) as [p|] eqn:E; [|done].
    destruct (Z.ltb_spec (p_stock p) (ri_quantity it)) as [Hlt|Hge]; [done|].
    intros H. apply IH in H as (news & -> & HF & Htot).
    exists (snapshot p it :: news). split; [by rewrite <- app_assoc|]. split.
    + constructor; [|done]. exists p. done.
    + rewrite Htot. simpl. lra.
Qed.

Lemma checkItems_inl (db : gmap N Product) items acc t r :
  checkItems db items acc t = inl r →
  ∃ pre it post, items = pre ++ it :: post ∧ Forall (lineOk db) pre
    ∧ ((db !! ri_productId it = None ∧ r = ProductNotFound (ri_productId it))
       ∨ (∃ p, db !! ri_productId it = Some p ∧ p_stock p < ri_quantity it
             ∧ r = InsufficientStock (ri_productId it) (p_stock p))).
Proof.
  revert acc t. induction items as [|it items IH]; intros acc t; simpl; [done|].
  destruct (db !! ri_productId it) as [p|] eqn:E.
  - destruct (Z.ltb_spec (p_stock p) (ri_quantity it)) as [Hlt|Hge].
    + intros [= <-]. exists [], it, items. split; [done|]. split; [constructor|].
      right. exists p. done.
    + intros H. apply IH in H as (pre & it' & post & -> & Hpre & Hcase).
      exists (it :: pre), it', post. split; [done|]. split; [|done].
      constructor; [|done]. exists p. done.
  - intros [= <-]. exists [], it, items. split; [done|]. split; [constructor|].
    left. done.
Qed.

Lemma checkItems_short (db : gmap N Product) items acc t :
  (∃ it, it ∈ items ∧ lineShort db it) → ∃ r, checkItems db items acc t = inl r.
Proof.
  intros (it & Hin & p & Hp & Hlt).
  destruct (checkItems db items acc t) as [r|[ois tot]] eqn:E; [by exists r|].
  apply checkItems_inr in E as (news & _ & HF & _).
  apply list_elem_of_lookup in Hin as [i Hi].
  destruct (Forall2_lookup_l _ _ _ i it HF Hi) as (oi & _ & p' & Hp' & Hle & _).
  rewrite Hp in Hp'. injection Hp' as <-. lia.
Qed.

(** *** Placing an order *)

Lemma createOrder_cases st userId newId items shot :
  let res := createOrder st userId newId items shot in
  (res.1 = st ∧ (res.2 = EmptyCart ∨ ∃ r, checkItems (products st) items [] 0%Q = inl r ∧ res.2 = r))
  ∨ (∃ ois tot, checkItems (products st) items [] 0%Q = inr (ois, tot) ∧
       let o := mkOrder userId ois tot paid_pending shot false in
       (res = (set_orders (insert newId o) (set_products (decrementAll ois) st), Created newId o)
        ∨ res = (set_products (decrementAll ois) st, OrderValidationError))).
Proof.
  unfold createOrder. destruct items as [|it items]; [left; simpl; auto|].
  rewrite checkItems_productMap.
  destruct (checkItems (products st) (it :: items) [] 0%Q) as [r|[ois tot]] eqn:E.
  - left. simpl. split; [done|]. right. by exists r.
  - right. exists ois, tot. split; [done|]. simpl.
    destruct (validOrder _); auto.
Qed.

Lemma sumFor_absent g k items news (db : gmap N Product) :
  Forall2 (λ ri oi, ∃ p, db !! ri_productId ri = Some p
                      ∧ ri_quantity ri <= p_stock p ∧ oi = snapshot p ri) items news →
  k ∉ map ri_productId items → sumFor g k news = 0.
Proof.
  induction 1 as [|ri oi items news (p & _ & _ & ->) _ IH]; intros Hk; simpl; [done|].
  simpl in Hk. rewrite not_elem_of_cons in Hk. destruct Hk as [Hne Hk].
  rewrite IH by done. destruct (N.eqb_spec (ri_productId ri) k); [congruence|done].
Qed.

Lemma qtyOf_distinct_le k p items news (db : gmap N Product) :
  Forall2 (λ ri oi, ∃ p, db !! ri_productId ri = Some p
                      ∧ ri_quantity ri <= p_stock p ∧ oi = snapshot p ri) items news →
  NoDup (map ri_productId items) → db !! k = Some p → 0 <= p_stock p →
  qtyOf k news <= p_stock p.
Proof.
  unfold qtyOf.
  induction 1 as [|ri oi items news (p' & Hp' & Hle & ->) HF IH]; intros Hnd Hk Hpos;
    simpl; [done|].
  simpl in Hnd. apply NoDup_cons in Hnd as [Hnotin Hnd].
  destruct (N.eqb_spec (ri_productId ri) k) as [Heq|Hne].
  - rewrite Heq in Hp', Hnotin.
    rewrite (sumFor_absent _ _ _ _ _ HF Hnotin). rewrite Hk in Hp'. injection Hp' as <-. lia.
  - specialize (IH Hnd Hk Hpos). lia.
Qed.

(** X1: when no product is named twice in the request, placing an order
    keeps every stock non-negative, whatever the outcome of the call. *)
Lemma createOrder_stock_nonneg_distinct st userId newId items shot :
  NoDup (map ri_productId items) →
  (∀ k p, products st !! k = Some p → 0 <= p_stock p) →
  ∀ k p, products (createOrder st userId newId items shot).1 !! k = Some p → 0 <= p_stock p.
Proof.
  intros Hnd Hpos k p.
  destruct (createOrder_cases st userId newId items shot) as [[-> _]|(ois & tot & E & Hres)].
  { apply Hpos. }
  apply checkItems_inr in E as (news & -> & HF & _). simpl in HF.
  assert (products (createOrder st userId newId items shot).1 = decrementAll news (products st))
    as -> by (destruct Hres as [-> | ->]; done).
  rewrite lookup_decrementAll. destruct (products st !! k) as [p0|] eqn:E0; [|done].
  intros [= <-]. simpl.
  pose proof (qtyOf_distinct_le k p0 items news _ HF Hnd E0 (Hpos _ _ E0)). lia.
Qed.

(** C1, evaluated on the code: a request of two lines of three gem packs is
    placed against a stock of five (every stock non-negative beforehand).
    Both lines pass the stock check against the same five, the order is
    created, and the stock of the product ends at -1. *)
Theorem createOrder_duplicate_lines_overdraw :
  let items := [mkRequestItem 1 3; mkRequestItem 1 3] in
  let res := createOrder Sample.shop 7 50 items None in
  (∀ k p, products Sample.shop !! k = Some p → 0 <= p_stock p)
  ∧ p_stock <$> products Sample.shop !! 1%N = Some 5
  ∧ (∃ o, res.2 = Created 50 o)
  ∧ p_stock <$> products res.1 !! 1%N = Some (-1).
Proof.
  split; [|split; [|split]].
  - intros k p. unfold Sample.shop; simpl.
    rewrite lookup_insert. case_decide; [intros [= <-]; simpl; lia|].
    rewrite lookup_insert. case_decide; [intros [= <-]; simpl; lia|].
    by rewrite lookup_empty.
  - reflexivity.
  - eexists. vm_compute. reflexivity.
  - vm_compute. reflexivity.
Qed.

(** C3 as stated fails: the second line asks for ten gem packs against a
    stock of five, but the first line names a product that does not exist,
    so the response is the not-found one and carries neither the short
    product nor its stock. *)
Lemma createOrder_short_item_counterexample :
  let items := [mkRequestItem 9 1; mkRequestItem 1 10] in
  let res := createOrder Sample.shop 7 50 items None in
  (∃ it, it ∈ items ∧ lineShort (products Sample.shop) it)
  ∧ res.2 = ProductNotFound 9
  ∧ ∀ pid avail, res.2 ≠ InsufficientStock pid avail.
Proof.
  split; [|split].
  - exists (mkRequestItem 1 10). split; [set_solver|].
    exists Sample.gem. split; [reflexivity|simpl; lia].
  - vm_compute. reflexivity.
  - intros pid avail. vm_compute. discriminate.
Qed.

(** C3, amended: when some line asks for more than the stock of its
    product, the request fails and the store is left as it was.  The
    response reports the first line, in request order, that is unresolved
    or short: not-found when that line names no product, and otherwise
    insufficient-stock with the id and the available stock of that short
    product.  When every line resolves, it is therefore always the
    insufficient-stock response for a short product. *)
Theorem createOrder_short_item_fails st userId newId items shot :
  (∃ it, it ∈ items ∧ lineShort (products st) it) →
  ∃ r pre it post,
    createOrder st userId newId items shot = (st, r)
    ∧ items = pre ++ it :: post
    ∧ Forall (lineOk (products st)) pre
    ∧ ((products st !! ri_productId it = None ∧ r = ProductNotFound (ri_productId it))
       ∨ (∃ p, products st !! ri_productId it = Some p ∧ p_stock p < ri_quantity it
             ∧ r = InsufficientStock (ri_productId it) (p_stock p)))
    ∧ ((∀ it', it' ∈ items → is_Some (products st !! ri_productId it')) →
       ∃ p, products st !! ri_productId it = Some p ∧ p_stock p < ri_quantity it
            ∧ r = InsufficientStock (ri_productId it) (p_stock p)).
Proof.
  intros Hshort.
  destruct (checkItems_short _ _ [] 0%Q Hshort) as [r Hr].
  destruct (checkItems_inl _ _ _ _ _ Hr) as (pre & it & post & Hitems & Hpre & Hcase).
  exists r, pre, it, post.
  split.
  { unfold createOrder. destruct items as [|it0 items]; [by destruct pre|].
    by rewrite checkItems_productMap, Hr. }
  split; [done|]. split; [done|]. split; [done|].
  intros Hall. destruct Hcase as [[Hnone _]|Hc]; [|done].
  destruct (Hall it) as [p Hp]; [subst items; apply elem_of_app; right; left|].
  congruence.
Qed.

Lemma createOrder_short_item_fails_witness :
  let items := [mkRequestItem 2 1; mkRequestItem 1 10] in
  (∃ it, it ∈ items ∧ lineShort (products Sample.shop) it)
  ∧ ∃ r pre it post,
      createOrder Sample.shop 7 50 items None = (Sample.shop, r)
      ∧ items = pre ++ it :: post
      ∧ Forall (lineOk (products Sample.shop)) pre
      ∧ ((products Sample.shop !! ri_productId it = None
          ∧ r = ProductNotFound (ri_productId it))
         ∨ (∃ p, products Sample.shop !! ri_productId it = Some p
               ∧ p_stock p < ri_quantity it
               ∧ r = InsufficientStock (ri_productId it) (p_stock p)))
      ∧ ((∀ it', it' ∈ items → is_Some (products Sample.shop !! ri_productId it')) →
         ∃ p, products Sample.shop !! ri_productId it = Some p
              ∧ p_stock p < ri_quantity it
              ∧ r = InsufficientStock (ri_productId it) (p_stock p)).
Proof.
  assert (∃ it, it ∈ [mkRequestItem 2 1; mkRequestItem 1 10]
                ∧ lineShort (products Sample.shop) it) as H.
  { exists (mkRequestItem 1 10). split.
    - right. left.
    - exists Sample.gem. split; [reflexivity|simpl; lia]. }
  split; [exact H|].
  exact (createOrder_short_item_fails Sample.shop 7 50 _ None H).
Defined.





(** *** Changing the status of an order *)

Lemma status_of_name_name s : status_of_name (status_name s) = Some s.
Proof. by destruct s. Qed.

Lemma status_of_name_Some s ns :
  status_of_name s = Some ns → s = status_name ns.
Proof.
  unfold status_of_name.
  destruct (String.eqb_spec s "pending") as [->|_]; [by intros [= <-]|].
  destruct (String.eqb_spec s "paid-pending") as [->|_]; [by intros [= <-]|].
  destruct (String.eqb_spec s "processing") as [->|_]; [by intros [= <-]|].
  destruct (String.eqb_spec s "completed") as [->|_]; [by intros [= <-]|].
  destruct (String.eqb_spec s "refunded") as [->|_]; [by intros [= <-]|].
  done.
Qed.

Lemma status_name_refunded ns : String.eqb (status_name ns) "refunded" = bool_decide (ns = refunded).
Proof. by destruct ns. Qed.

(** What [updateOrderStatus] does to an existing order when the requested
    status is one of the five names. *)
Lemma updateOrderStatus_valid st oid o ns :
  orders st !! oid = Some o →
  updateOrderStatus st oid (Some (status_name ns))
  = (set_orders (insert oid (with_status o ns))
       (if bool_decide (ns = refunded) && negb (bool_decide (o_status o = refunded))
        then set_products (restockAll (o_items o)) st else st),
     Updated oid (with_status o ns)).
Proof.
  intros Ho. unfold updateOrderStatus. rewrite Ho.
  replace (String.eqb (status_name ns) "" || negb (existsb (String.eqb (status_name ns)) validStatuses))
    with false by (by destruct ns).
  rewrite status_of_name_name, !status_name_refunded. done.
Qed.



Lemma refund_from_other_status st oid o :
  orders st !! oid = Some o → o_status o ≠ refunded →
  (updateOrderStatus st oid (Some "refunded")).1
  = set_orders (insert oid (with_status o refunded))
      (set_products (restockAll (o_items o)) st).
Proof.
  intros Ho Hne. change "refunded" with (status_name refunded).
  rewrite (updateOrderStatus_valid _ _ _ _ Ho). simpl.
  by rewrite bool_decide_eq_false_2.
Qed.



End OrderFacts.

(** ** Category tree *)

Section CategoryFacts.

Import Categories.

Lemma elem_of_childrenOf (cats : gmap N Category) c d :
  d ∈ childrenOf cats c ↔ isChild cats d c.
Proof.
  unfold childrenOf, isChild. rewrite list_elem_of_fmap. split.
  - intros ([k cat] & -> & Hin). apply elem_of_map_to_list in Hin.
    apply map_lookup_filter_Some in Hin as [Hk Hp]. by exists cat.
  - intros (cat & Hk & Hp). exists (d, cat). split; [done|].
    apply elem_of_map_to_list. by apply map_lookup_filter_Some.
Qed.

Lemma descendant_unfold (cats : gmap N Category) x c :
  descendant cats x c ↔ isChild cats x c ∨ ∃ d, isChild cats d c ∧ descendant cats x d.
Proof.
  split.
  - intros H. destruct H as [x c H|x d c Hd H]; [by left|right; by exists d].
  - intros [H|(d & Hd & H)]; [by apply desc_child|by eapply desc_deeper].
Qed.

(** Going one step further down from [x]. *)
Lemma descendant_below (cats : gmap N Category) d x c :
  isChild cats d x → descendant cats x c → descendant cats d c.
Proof.
  intros Hd H. induction H as [x c H|x e c He H IH].
  - eapply desc_deeper; [exact H|]. by apply desc_child.
  - eapply desc_deeper; [exact He|]. by apply IH.
Qed.

Lemma collectLoop_elem (cats : gmap N Category) rec children ids l :
  (∀ d l', d ∈ children → rec d = Some l' → ∀ x, x ∈ l' ↔ descendant cats x d) →
  collectLoop rec children ids = Some l →
  ∀ x, x ∈ l ↔ x ∈ ids ∨ x ∈ children ∨ ∃ d, d ∈ children ∧ descendant cats x d.
Proof.
  revert ids. induction children as [|child rest IH]; intros ids Hrec; simpl.
  - intros [= <-] x. split; [by left|].
    intros [H|[H|(d & H & _)]]; [done|by apply elem_of_nil in H..].
  - destruct (rec child) as [ds|] eqn:E; [|done]. intros Hl x.
    rewrite (IH _ (λ d l' Hd, Hrec d l' (list_elem_of_further _ _ _ Hd)) Hl x).
    rewrite !elem_of_app, list_elem_of_singleton.
    rewrite (Hrec child ds (list_elem_of_here _ _) E x).
    setoid_rewrite elem_of_cons. naive_solver.
Qed.

Lemma getAllDescendantIds_elem fuel (cats : gmap N Category) c l :
  getAllDescendantIds fuel cats c = Some l → ∀ x, x ∈ l ↔ descendant cats x c.
Proof.
  revert c l. induction fuel as [|n IH]; intros c l; simpl; [done|].
  intros H x. rewrite (collectLoop_elem cats _ _ _ _ (λ d l' _, IH d l') H x).
  rewrite descendant_unfold. setoid_rewrite elem_of_childrenOf.
  split; [intros [H0|H0]; [by apply elem_of_nil in H0|done]|by right].
Qed.

Lemma collectLoop_is_Some rec children ids :
  (∀ d, d ∈ children → is_Some (rec d)) → is_Some (collectLoop rec children ids).
Proof.
  revert ids. induction children as [|child rest IH]; intros ids Hrec; simpl; [done|].
  destruct (Hrec child (list_elem_of_here _ _)) as [ds ->].
  apply IH. intros d Hd. apply Hrec. by right.
Qed.

(** Where no cycle lies at or below [root], the expansion below a category
    [c] of that subtree finishes as soon as the fuel exceeds the number of
    categories not yet on the path to [c]. *)
Lemma getAllDescendantIds_is_Some fuel (cats : gmap N Category) root c (visited : gset N) :
  acyclicBelow cats root →
  inSubtree cats root c →
  visited ⊆ dom cats →
  (∀ v, v ∈ visited → v = c ∨ descendant cats c v) →
  (size (dom cats) < fuel + size visited)%nat →
  is_Some (getAllDescendantIds fuel cats c).
Proof.
  intros Hac. revert c visited.
  induction fuel as [|n IH]; intros c visited Hc Hsub Hpath Hsize.
  - apply subseteq_size in Hsub. simpl in Hsize. lia.
  - simpl. apply collectLoop_is_Some. intros d Hd.
    apply elem_of_childrenOf in Hd.
    assert (d ∉ visited) as Hfresh.
    { intros Hin. destruct (Hpath d Hin) as [->|Hup].
      - apply (Hac c Hc). by apply desc_child.
      - apply (Hac c Hc). by eapply desc_deeper. }
    apply (IH d ({[d]} ∪ visited)).
    + right. destruct Hc as [->|Hc]; [by apply desc_child|by eapply descendant_below].
    + destruct Hd as (cat & Hcat & _).
      apply union_subseteq. split; [|done].
      apply singleton_subseteq_l, elem_of_dom. by exists cat.
    + intros v [Hv|Hv]%elem_of_union.
      * left. by apply elem_of_singleton in Hv.
      * right. destruct (Hpath v Hv) as [->|Hup].
        -- by apply desc_child.
        -- by eapply descendant_below.
    + rewrite size_union by set_solver. rewrite size_singleton. lia.
Qed.

Lemma collectLoop_None rec children ids d :
  d ∈ children → rec d = None → collectLoop rec children ids = None.
Proof.
  revert ids. induction children as [|child rest IH]; intros ids Hd Hnone; simpl.
  - by apply elem_of_nil in Hd.
  - apply elem_of_cons in Hd as [<-|Hd]; [by rewrite Hnone|].
    destruct (rec child); [by apply IH|done].
Qed.

(** The expansion never finishes on a category that lies on a cycle, nor
    on one that has such a category below it: the condition above cannot
    be dropped. *)
Lemma getAllDescendantIds_cycle fuel (cats : gmap N Category) c x :
  inSubtree cats c x → descendant cats x x → getAllDescendantIds fuel cats c = None.
Proof.
  revert c x. induction fuel as [|n IH]; intros c x Hx Hcyc; simpl; [done|].
  destruct Hx as [->|Hx].
  - apply descendant_unfold in Hcyc as [Hself|(d & Hd & Hcd)].
    + apply (collectLoop_None _ _ _ c); [by apply elem_of_childrenOf|].
      apply (IH c c); [by left|by apply desc_child].
    + apply (collectLoop_None _ _ _ d); [by apply elem_of_childrenOf|].
      apply (IH d d); [by left|by eapply descendant_below].
  - apply descendant_unfold in Hx as [Hchild|(d & Hd & Hxd)].
    + apply (collectLoop_None _ _ _ x); [by apply elem_of_childrenOf|].
      apply (IH x x); [by left|done].
    + apply (collectLoop_None _ _ _ d); [by apply elem_of_childrenOf|].
      apply (IH d x); [by right|done].
Qed.

(** C7: for an existing category [C] with no cycle at or below it (as the
    invariant of the data model grants for every category),
    [deleteCategory] finishes, with any fuel above the number of
    categories, and the store it leaves holds exactly the categories
    outside [{C} ∪ descendants(C)] and exactly the products whose
    [categoryId] is outside that set, each with its document unchanged;
    orders and reviews are not touched. *)
Theorem deleteCategory_removes_exactly_subtree st C fuel :
  acyclicBelow (categories st) C →
  is_Some (categories st !! C) →
  (size (categories st) < fuel)%nat →
  ∃ st' r, deleteCategory fuel st C = Some (st', r)
    ∧ (∀ k c, categories st' !! k = Some c
              ↔ categories st !! k = Some c ∧ ¬ inSubtree (categories st) C k)
    ∧ (∀ k p, products st' !! k = Some p
              ↔ products st !! k = Some p ∧ ¬ inSubtree (categories st) C (p_categoryId p))
    ∧ orders st' = orders st
    ∧ reviews st' = reviews st.
Proof.
  intros Hac [cat Hcat] Hfuel. unfold deleteCategory. rewrite Hcat.
  destruct (getAllDescendantIds_is_Some fuel (categories st) C C ∅ Hac) as [l Hl].
  { by left. }
  { apply empty_subseteq. }
  { intros v Hv. by apply elem_of_empty in Hv. }
  { rewrite size_dom, size_empty. lia. }
  rewrite Hl. eexists _, _. split; [done|]. simpl.
  assert (∀ x, x ∈ C :: l ↔ inSubtree (categories st) C x) as Hall.
  { intros x. unfold inSubtree.
    by rewrite elem_of_cons, (getAllDescendantIds_elem _ _ _ _ Hl x). }
  split; [|split; [|done]].
  - intros k c. rewrite map_lookup_filter_Some. simpl. by rewrite Hall.
  - intros k p. rewrite map_lookup_filter_Some. simpl. by rewrite Hall.
Qed.

Lemma acyclic_acyclicBelow (cats : gmap N Category) c : acyclic cats → acyclicBelow cats c.
Proof. intros H x _. apply H. Qed.

(** A collection whose parent links strictly decrease some rank has no
    cycle. *)
Lemma acyclic_of_rank (cats : gmap N Category) (rank : N → nat) :
  (∀ x c, isChild cats x c → (rank c < rank x)%nat) → acyclic cats.
Proof.
  intros Hrank.
  assert (∀ x c, descendant cats x c → (rank c < rank x)%nat) as Hd.
  { intros x c H. induction H as [x c H|x d c Hdc H IH].
    - by apply Hrank.
    - apply Hrank in Hdc. lia. }
  intros x Hx. apply Hd in Hx. lia.
Qed.

Lemma sample_tree_acyclic : acyclic Sample.tree.
Proof.
  apply (acyclic_of_rank _ (λ k, if N.eqb k 11 then 1 else if N.eqb k 12 then 2 else 0)%nat).
  intros x c (cat & Hx & Hp). unfold Sample.tree in Hx.
  repeat (rewrite lookup_insert in Hx; case_decide;
          [injection Hx as <-; simpl in Hp; simplify_eq; simpl; lia|]).
  by rewrite lookup_empty in Hx.
Qed.

Lemma deleteCategory_removes_exactly_subtree_witness :
  ∃ st', fst <$> deleteCategory 5 Sample.catalog 11 = Some st'
    ∧ dom (categories st') = {[10%N; 13%N]}
    ∧ dom (products st') = {[1%N; 3%N]}
    ∧ (∀ k c, categories st' !! k = Some c
              ↔ Sample.tree !! k = Some c ∧ ¬ inSubtree Sample.tree 11 k).
Proof.
  destruct (deleteCategory_removes_exactly_subtree Sample.catalog 11 5)
    as (st' & r & Hrun & Hcats & _).
  - exact (acyclic_acyclicBelow _ _ sample_tree_acyclic).
  - vm_compute. eauto.
  - vm_compute. lia.
  - exists st'. rewrite Hrun. split; [reflexivity|].
    assert (deleteCategory 5 Sample.catalog 11
            = Some (mkStore (<[1%N := Sample.gem]> (<[3%N := Sample.shirt]> ∅)) ∅
                      (<[10%N := mkCategory "Games" None "" ""]>
                         (<[13%N := mkCategory "Merch" None "" ""]> ∅)) ∅,
                    Deleted "Brawl" 1 2)) as Hval by (vm_compute; reflexivity).
    rewrite Hrun in Hval. injection Hval as -> _.
    split; [vm_compute; reflexivity|]. split; [vm_compute; reflexivity|].
    exact Hcats.
Defined.

(** C9: [isDescendant(C, C)] answers true for every id [C], at the first
    call; and for a stored category [R] whose [parentId] is null and every
    id [A] other than [R], [isDescendant(R, A)] answers false, again at the
    first call: the walk stops at the root. *)
Theorem isDescendant_self_and_root (cats : gmap N Category) (fuel : nat) :
  (∀ C, isDescendant (S fuel) cats (Some C) C = Some true)
  ∧ (∀ R A cat, cats !! R = Some cat → c_parentId cat = None → A ≠ R →
       isDescendant (S fuel) cats (Some R) A = Some false).
Proof.
  split.
  - intros C. simpl. by rewrite N.eqb_refl.
  - intros R A cat HR Hroot Hne. simpl.
    destruct (N.eqb_spec R A) as [->|_]; [done|].
    by rewrite HR, Hroot.
Qed.

Lemma isDescendant_self_and_root_witness :
  isDescendant 1 Sample.tree (Some 12%N) 12 = Some true
  ∧ isDescendant 1 Sample.tree (Some 10%N) 12 = Some false.
Proof.
  destruct (isDescendant_self_and_root Sample.tree 0) as [Hself Hroot].
  split; [apply Hself|].
  apply (Hroot 10%N 12%N (mkCategory "Games" None "" "")).
  - reflexivity.
  - reflexivity.
  - discriminate.
Defined.

(** *** The handlers keep the tree well formed *)











End CategoryFacts.

(** ** Reviews *)

Section ReviewFacts.

Import Reviews.


Lemma Qltb_ge a b : Qltb a b = false ↔ (b <= a)%Q.
Proof. unfold Qltb, Qle. apply Z.ltb_ge. Qed.

Lemma head_filter_Some {A} (f : A → bool) (l : list A) x :
  head (List.filter f l) = Some x → x ∈ l ∧ f x = true.
Proof.
  induction l as [|y l IH]; simpl; [done|].
  destruct (f y) eqn:E; simpl.
  - intros [= <-]. split; [left|done].
  - intros H. destruct (IH H). split; [by right|done].
Qed.

Lemma filter_none {A} (f : A → bool) (l : list A) :
  (∀ x, f x = false) → List.filter f l = [].
Proof. intros H. induction l as [|y l IH]; simpl; [done|]. by rewrite H. Qed.

(** What the eligibility query of [createReview] tests: with [strictQuery]
    on, the order id, the status and the product; never the owner. *)
Lemma eligibility_query strictQuery orderId userId productId id o :
  orderMatches strictQuery
    [("_id", QId orderId); ("userId", QId userId);
     ("status", QStr "completed"); ("items.productId", QId productId)] id o
  = N.eqb orderId id && (strictQuery &&
      (String.eqb "completed" (status_name (o_status o)) &&
        (existsb (λ it, N.eqb productId (oi_productId it)) (o_items o) && true))).
Proof. reflexivity. Qed.

(** With [strictQuery] off the query matches no order at all, so no review
    can ever be created, not even by the buyer. *)
Lemma createReview_filter_kept_never_creates st user newId rq :
  (createReview false st user newId rq).2 = MissingFields
  ∨ (createReview false st user newId rq).2 = BadRating
  ∨ (createReview false st user newId rq).2 = ProductNotFound
  ∨ (createReview false st user newId rq).2 = NotEligible.
Proof.
  unfold createReview.
  destruct (rq_productId rq) as [pid|]; [|by left].
  destruct (rq_orderId rq) as [oid|]; [|by left].
  destruct (rq_rating rq) as [q|]; [|by left].
  destruct (Qzerob q); [by left|].
  destruct (Qltb q 1 || Qltb 5 q); [right; by left|].
  destruct (products st !! pid); [|right; right; by left].
  unfold Order_findOne. rewrite filter_none; [right; right; by right|].
  intros [id o]. rewrite eligibility_query. simpl. apply andb_false_r.
Qed.

(** What a successful [createReview] has checked about the order when
    [strictQuery] is on: it exists, is completed, holds the product and has
    no review yet. *)
Lemma createReview_created_checks st user newId rq id r :
  (createReview true st user newId rq).2 = Created id r →
  ∃ productId orderId o,
    rq_productId rq = Some productId ∧ rq_orderId rq = Some orderId
    ∧ orders st !! orderId = Some o
    ∧ o_status o = completed
    ∧ productId ∈ map oi_productId (o_items o)
    ∧ o_reviewSubmitted o = false.
Proof.
  unfold createReview.
  destruct (rq_productId rq) as [pid|]; [|done].
  destruct (rq_orderId rq) as [oid|]; [|done].
  destruct (rq_rating rq) as [q|]; [|done].
  destruct (Qzerob q); [done|].
  destruct (Qltb q 1 || Qltb 5 q); [done|].
  destruct (products st !! pid); [|done].
  destruct (Order_findOne _ _ _) as [[k o]|] eqn:E; [|done].
  destruct (o_reviewSubmitted o) eqn:Hsub; [done|].
  destruct (Review_findOne _ _ _); [done|]. intros _.
  apply head_filter_Some in E as [Hin Hm]. apply elem_of_map_to_list in Hin.
  rewrite eligibility_query in Hm.
  apply andb_prop in Hm as [Hk Hm]. apply andb_prop in Hm as [_ Hm].
  apply andb_prop in Hm as [Hs Hm]. apply andb_prop in Hm as [Hp _].
  cbn [fst snd] in Hk, Hs, Hp. apply N.eqb_eq in Hk. subst k.
  exists pid, oid, o. split; [done|]. split; [done|]. split; [done|].
  split; [|split; [|done]].
  - by destruct (o_status o).
  - apply existsb_exists in Hp as (it & Hit & Heq). apply N.eqb_eq in Heq as ->.
    apply list_elem_of_In, in_map, Hit.
Qed.

(** C2, evaluated on the code: order 50 belongs to user 7, is completed and
    contains product 1.  User 8 asks to review product 1 under order 50.
    With the filter handled as Mongoose 6 handles it, the condition on
    [userId] names no path of the schema and is dropped, the order is found
    and the review of user 8 is created.  With the condition kept in the
    filter instead, the same request from user 7, the buyer, is refused as
    not eligible. *)
Theorem createReview_accepts_foreign_order :
  let rq := mkRequest (Some 1%N) (Some 50%N) (Some (5 # 1)%Q) None in
  let res := createReview true Sample.completedShop Sample.bob 900 rq in
  orders Sample.completedShop !! 50%N = Some (Sample.gemOrder completed)
  ∧ o_user (Sample.gemOrder completed) = 7%N
  ∧ u_id Sample.bob = 8%N
  ∧ res.2 = Created 900 (mkReview 8 1 50 "bob" (5 # 1) "")
  ∧ reviews res.1 !! 900%N = Some (mkReview 8 1 50 "bob" (5 # 1) "")
  ∧ o_reviewSubmitted <$> orders res.1 !! 50%N = Some true
  ∧ u_id Sample.alice = 7%N
  ∧ createReview false Sample.completedShop Sample.alice 900 rq
    = (Sample.completedShop, NotEligible).
Proof.
  split; [|split; [|split; [|split; [|split; [|split; [|split]]]]]];
    vm_compute; reflexivity.
Qed.

(** C4 as stated fails: the rating 3.5 is not integer-valued, yet it passes
    the rating checks whatever the query mode, and with the order of the
    buyer completed the review is stored with rating 3.5. *)
Lemma createReview_fractional_rating_counterexample :
  let rq := mkRequest (Some 1%N) (Some 50%N) (Some (7 # 2)%Q) None in
  (∀ strictQuery,
     (createReview strictQuery Sample.completedShop Sample.alice 900 rq).2 ≠ BadRating
     ∧ (createReview strictQuery Sample.completedShop Sample.alice 900 rq).2 ≠ MissingFields)
  ∧ (createReview true Sample.completedShop Sample.alice 900 rq).2
    = Created 900 (mkReview 7 1 50 "Alice" (7 # 2) "")
  ∧ rv_rating <$> reviews (createReview true Sample.completedShop Sample.alice 900 rq).1 !! 900%N
    = Some (7 # 2)%Q.
Proof.
  split; [|split].
  - intros []; split; vm_compute; discriminate.
  - vm_compute. reflexivity.
  - vm_compute. reflexivity.
Qed.

(** C4, amended: the rating is accepted only if it is a number in [1,5],
    integer-valued or not.  A review is created only with a rating within
    [1,5], which is stored as given; a rating below 1 or above 5 is
    rejected with a validation error (the missing-field one when it is 0,
    the range one otherwise) and a missing rating with the missing-field
    error, the store being left as it was. *)
Theorem createReview_rating_range strictQuery st user newId rq :
  let res := createReview strictQuery st user newId rq in
  (∀ id r, res.2 = Created id r →
     ∃ q, rq_rating rq = Some q ∧ (1 <= q <= 5)%Q ∧ rv_rating r = q)
  ∧ (∀ q, rq_rating rq = Some q → (q < 1 ∨ 5 < q)%Q →
       res.1 = st ∧ (res.2 = MissingFields ∨ res.2 = BadRating))
  ∧ (rq_rating rq = None → res = (st, MissingFields)).
Proof.
  intros res. subst res. unfold createReview.
  destruct (rq_productId rq) as [pid|];
    [|split; [done|split; [intros; auto|done]]].
  destruct (rq_orderId rq) as [oid|];
    [|split; [done|split; [intros; auto|done]]].
  destruct (rq_rating rq) as [q|]; [|done].
  destruct (Qzerob q); [split; [done|split; [intros; auto|done]]|].
  destruct (Qltb q 1) eqn:E1; [split; [done|split; [intros; auto|done]]|].
  destruct (Qltb 5 q) eqn:E5; [split; [done|split; [intros; auto|done]]|]. simpl.
  apply Qltb_ge in E1, E5. split; [|split; [|done]].
  - intros id r.
    destruct (products st !! pid); [|done].
    destruct (Order_findOne _ _ _) as [[k o]|]; [|done].
    destruct (o_reviewSubmitted o); [done|].
    destruct (Review_findOne _ _ _); [done|]. simpl.
    intros [= <- <-]. by exists q.
  - intros q' [= <-] [H|H]; lra.
Qed.

Lemma createReview_rating_range_witness :
  let rq := mkRequest (Some 1%N) (Some 50%N) (Some (6 # 1)%Q) None in
  let res := createReview true Sample.completedShop Sample.alice 900 rq in
  res.1 = Sample.completedShop ∧ (res.2 = MissingFields ∨ res.2 = BadRating).
Proof.
  intros rq res.
  destruct (createReview_rating_range true Sample.completedShop Sample.alice 900 rq)
    as (_ & Hout & _).
  apply (Hout (6 # 1)%Q); [reflexivity|]. right. reflexivity.
Defined.

End ReviewFacts.

(** ** Telegram login *)

Section AuthFacts.

Import Auth.

(** The embedding of SHA-256 and HMAC agrees with the published vectors:
    FIPS 180-4 for ["abc"], RFC 4231 (test case 2) for HMAC. *)
Lemma sha256_abc :
  hex (sha256 (bytesOf "abc"))
  = "ba7816bf8f01cfea414140de5dae2223b00361a396177a9cb410ff61f20015ad".
Proof. vm_compute. reflexivity. Qed.

Lemma hmacSha256_rfc4231_2 :
  hex (hmacSha256 (bytesOf "Jefe") (bytesOf "what do ya want for nothing?"))
  = "5bdcc146bf60754e6a042426089575c75a003f089d2739839dec58b964ec3843".
Proof. vm_compute. reflexivity. Qed.

Lemma insertSorted_perm x l : Permutation (insertSorted x l) (x :: l).
Proof.
  induction l as [|y l IH]; simpl; [done|].
  destruct (String.leb x y); [done|].
  rewrite IH. apply perm_swap.
Qed.

Lemma sort_perm l : Permutation (sort l) l.
Proof.
  induction l as [|x l IH]; simpl; [done|].
  rewrite insertSorted_perm. by constructor.
Qed.

Lemma insertSorted_hd x y l :
  strLe y x → HdRel strLe y l → HdRel strLe y (insertSorted x l).
Proof.
  intros Hyx Hl. destruct l as [|z l]; simpl; [by constructor|].
  destruct (String.leb x z); constructor; [done|by inversion Hl].
Qed.

Lemma insertSorted_sorted x l : Sorted strLe l → Sorted strLe (insertSorted x l).
Proof.
  induction 1 as [|y l Hl IH Hhd]; simpl; [by repeat constructor|].
  destruct (String.leb x y) eqn:E.
  - constructor; [by constructor|]. by constructor.
  - constructor; [done|]. apply insertSorted_hd; [|done].
    unfold strLe. by destruct (String.leb_total x y) as [H|H]; [congruence|].
Qed.

Lemma sort_sorted l : Sorted strLe (sort l).
Proof.
  induction l as [|x l IH]; simpl; [constructor|]. by apply insertSorted_sorted.
Qed.

Lemma ascii_above_gt c : Ascii.ltb "=" c = true → Ascii.compare c "=" = Gt.
Proof.
  unfold Ascii.ltb. rewrite (Ascii.compare_antisym c "=").
  by destruct (Ascii.compare "=" c).
Qed.

(** Between keys whose characters all sort above the equals sign, the
    order of the [key=value] strings is the order of the keys. *)
Lemma pairString_order k1 v1 k2 v2 :
  aboveEquals k1 = true → aboveEquals k2 = true →
  strLe (pairString (k1, v1)) (pairString (k2, v2)) → keyLe (k1, v1) (k2, v2).
Proof.
  unfold strLe, keyLe, pairString, String.leb. simpl.
  revert k2. induction k1 as [|c1 k1 IH]; intros [|c2 k2]; simpl; try done.
  - intros [Hc _]%andb_prop _. by rewrite (ascii_above_gt _ Hc).
  - intros [_ H1]%andb_prop [_ H2]%andb_prop.
    destruct (Ascii.compare c1 c2); [by apply IH|done|done].
Qed.

Lemma sorted_by_key (pairs : list (string * string)) :
  Forall (λ kv, aboveEquals kv.1 = true) pairs →
  Sorted strLe (map pairString pairs) → Sorted keyLe pairs.
Proof.
  induction pairs as [|[k v] pairs IH]; simpl; intros Hk Hs; [constructor|].
  apply Forall_cons in Hk as [Hk Hks]. inversion Hs as [|? ? Hs' Hhd]; subst.
  constructor; [by apply IH|].
  destruct pairs as [|[k' v'] pairs]; [constructor|].
  constructor. apply Forall_cons in Hks as [Hk' _].
  simpl in Hhd. inversion Hhd; subst. by apply pairString_order.
Qed.

(** C5 as stated fails on a payload signed the way Telegram signs: the
    code accepts it, while the digest computed as the statement words it (secret
    keyed by the bot token over the literal, pairs ordered by key) differs
    from the declared hash.  On this payload the two orderings agree; the
    roles of key and message in the derivation of the secret make the
    difference. *)
Lemma validateTelegramData_counterexample :
  validateTelegramData Sample.initData Sample.botToken = true
  ∧ validateAsWorded Sample.initData Sample.botToken = false
  ∧ map pairString (fold_right insertByKey [] (List.filter notHash (URLSearchParams Sample.initData)))
    = sort (map pairString (List.filter notHash (URLSearchParams Sample.initData))).
Proof. split; [|split]; vm_compute; reflexivity. Qed.

(** Ordering the [key=value] strings is not ordering by key in general:
    a key may continue with a character that sorts below the equals sign. *)
Lemma sort_is_not_by_key :
  let params := [("a", "2"); ("a-", "1")] in
  sort (map pairString params) = ["a-=1"; "a=2"]
  ∧ map pairString (fold_right insertByKey [] params) = ["a=2"; "a-=1"].
Proof. split; vm_compute; reflexivity. Qed.

(** C5, amended: the secret is the HMAC-SHA256 of the bot token keyed by
    the literal ["WebAppData"]; the checked string is the newline-joined
    list of the non-hash [key=value] pairs in ascending string order (a
    sorted permutation of them, which is their order by key whenever every
    key character sorts above the equals sign); and the payload
    authenticates exactly when a non-empty hash is declared and equals the
    hex digest of the HMAC-SHA256 of the checked string keyed by that
    secret. *)
Theorem validateTelegramData_spec initData botToken :
  let params := URLSearchParams initData in
  ∃ lines : list string,
    Permutation lines (map pairString (List.filter notHash params))
    ∧ Sorted strLe lines
    ∧ (∀ pairs, lines = map pairString pairs →
         Forall (λ kv, aboveEquals kv.1 = true) pairs → Sorted keyLe pairs)
    ∧ (validateTelegramData initData botToken = true
       ↔ ∃ hash, get "hash" params = Some hash ∧ hash ≠ ""
           ∧ hex (hmacSha256 (hmacSha256 (bytesOf "WebAppData") (bytesOf botToken))
                    (bytesOf (String.concat newline lines))) = hash).
Proof.
  intros params.
  exists (sort (map pairString (List.filter notHash params))).
  split; [apply sort_perm|]. split; [apply sort_sorted|]. split.
  { intros pairs Heq Hk. apply sorted_by_key; [done|]. rewrite <- Heq. apply sort_sorted. }
  unfold validateTelegramData. fold params. unfold dataCheckString.
  destruct (get "hash" params) as [hash|]; [|split; [done|by intros (? & ? & _)]].
  destruct (String.eqb_spec hash "") as [->|Hne].
  - split; [done|]. by intros (? & [= <-] & ? & _).
  - rewrite String.eqb_eq. split.
    + intros H. by exists hash.
    + by intros (? & [= <-] & _ & H).
Qed.

End AuthFacts.

(** * Further properties of the handlers *)

(** ** Orders and stock *)

Section MoreOrderFacts.

Import Orders.

Lemma createOrder_stock_nonneg_distinct_witness :
  let items := [mkRequestItem 1 5; mkRequestItem 2 1] in
  NoDup (map ri_productId items)
  ∧ (∀ k p, products Sample.shop !! k = Some p → 0 <= p_stock p)
  ∧ ∀ k p, products (createOrder Sample.shop 7 50 items None).1 !! k = Some p →
           0 <= p_stock p.
Proof.
  assert (NoDup (map ri_productId [mkRequestItem 1 5; mkRequestItem 2 1])) as Hnd.
  { simpl. apply NoDup_cons. split; [|apply NoDup_singleton].
    intros H. apply list_elem_of_singleton in H. discriminate. }
  assert (∀ k p, products Sample.shop !! k = Some p → 0 <= p_stock p) as Hpos.
  { intros k p. unfold Sample.shop; simpl.
    rewrite lookup_insert. case_decide; [intros [= <-]; simpl; lia|].
    rewrite lookup_insert. case_decide; [intros [= <-]; simpl; lia|].
    by rewrite lookup_empty. }
  split; [exact Hnd|]. split; [exact Hpos|].
  exact (createOrder_stock_nonneg_distinct Sample.shop 7 50 _ None Hnd Hpos).
Defined.

Lemma snapshots_follow_request (db : gmap N Product) items news :
  Forall2 (λ ri oi, ∃ p, db !! ri_productId ri = Some p
                      ∧ ri_quantity ri <= p_stock p ∧ oi = snapshot p ri) items news →
  map oi_productId news = map ri_productId items
  ∧ map oi_quantity news = map ri_quantity items.
Proof.
  induction 1 as [|ri oi items news (p & _ & _ & ->) _ [IH1 IH2]]; simpl; [done|].
  by rewrite IH1, IH2.
Qed.

(** The two ways [createOrder] can end after the validation loop passed. *)
Lemma createOrder_passed st userId newId items shot ois tot :
  checkItems (products st) items [] 0%Q = inr (ois, tot) →
  items ≠ [] →
  createOrder st userId newId items shot
  = let o := mkOrder userId ois tot paid_pending shot false in
    if validOrder o
    then (set_orders (insert newId o) (set_products (decrementAll ois) st), Created newId o)
    else (set_products (decrementAll ois) st, OrderValidationError).
Proof.
  intros E Hne. unfold createOrder. destruct items as [|it items]; [done|].
  by rewrite checkItems_productMap, E.
Qed.

Lemma checkItems_inr_nonempty (db : gmap N Product) items acc t r :
  checkItems db items acc t = inr r → items = [] → r = (acc, t).
Proof. intros H ->. simpl in H. congruence. Qed.

(** What a created order did to the store. *)
Lemma createOrder_created st userId newId items shot st' oid o :
  createOrder st userId newId items shot = (st', Created oid o) →
  oid = newId
  ∧ o = mkOrder userId (o_items o) (o_totalAmount o) paid_pending shot false
  ∧ st' = set_orders (insert newId o) (set_products (decrementAll (o_items o)) st)
  ∧ validOrder o = true
  ∧ checkItems (products st) items [] 0%Q = inr (o_items o, o_totalAmount o).
Proof.
  intros H.
  destruct (createOrder_cases st userId newId items shot) as [[_ Hfail]|(ois & tot & E & Hres)].
  { rewrite H in Hfail; simpl in Hfail. exfalso.
    destruct Hfail as [?|(r & Hr & Heq)]; [done|]. subst r.
    apply checkItems_inl in Hr as (? & ? & ? & _ & _ & [[_ ?]|(? & _ & _ & ?)]); done. }
  simpl in Hres. rewrite H in Hres. destruct Hres as [Hres|Hres]; [|done].
  injection Hres as -> -> ->. simpl. split; [done|]. split; [done|]. split; [done|].
  split; [|done].
  unfold createOrder in H. destruct items as [|it items]; [done|].
  rewrite checkItems_productMap, E in H.
  by destruct (validOrder _).
Qed.



Lemma checkItems_all_ok (db : gmap N Product) items acc t :
  Forall (lineOk db) items → ∃ ois tot, checkItems db items acc t = inr (ois, tot).
Proof.
  intros H. revert acc t. induction H as [|it items (p & Hp & Hle) _ IH]; intros acc t; simpl.
  - eauto.
  - rewrite Hp. destruct (Z.ltb_spec (p_stock p) (ri_quantity it)); [lia|]. apply IH.
Qed.

(** X3: when every line resolves and is covered by the stock but some line
    asks for a quantity below 1, no order is stored and the answer is the
    validation error of [order.save()]; the stock decrements have been
    applied all the same, so a negative quantity leaves the stock of its
    product raised. *)
Theorem createOrder_quantity_below_one st userId newId items shot :
  Forall (lineOk (products st)) items →
  (∃ it, it ∈ items ∧ ri_quantity it < 1) →
  let res := createOrder st userId newId items shot in
  res.2 = OrderValidationError
  ∧ orders res.1 = orders st
  ∧ ∃ ois, map oi_productId ois = map ri_productId items
      ∧ map oi_quantity ois = map ri_quantity items
      ∧ ∀ k, products res.1 !! k = addStock (- qtyOf k ois) <$> products st !! k.
Proof.
  intros Hok (it & Hin & Hq) res.
  destruct (checkItems_all_ok _ _ [] 0%Q Hok) as (ois & tot & E).
  assert (items ≠ []) as Hne by (intros ->; by apply elem_of_nil in Hin).
  pose proof (createOrder_passed st userId newId items shot ois tot E Hne) as Hrun.
  apply checkItems_inr in E as (news & Hnews & HF & _). simpl in Hnews. subst ois.
  assert (validOrder (mkOrder userId news tot paid_pending shot false) = false) as Hinvalid.
  { unfold validOrder. simpl. apply andb_false_intro1.
    apply list_elem_of_lookup in Hin as [i Hi].
    destruct (Forall2_lookup_l _ _ _ i it HF Hi) as (oi & Hoi & p & _ & _ & ->).
    apply not_true_is_false. intros Hall.
    rewrite forallb_forall in Hall.
    specialize (Hall (snapshot p it)).
    assert (validItem (snapshot p it) = true) as Hv.
    { apply Hall, list_elem_of_In, list_elem_of_lookup. eauto. }
    unfold validItem in Hv. simpl in Hv.
    apply andb_prop in Hv as [Hv _]. apply andb_prop in Hv as [_ Hv].
    apply Z.leb_le in Hv. lia. }
  simpl in Hrun. rewrite Hinvalid in Hrun. subst res. rewrite Hrun. simpl.
  split; [done|]. split; [done|]. exists news.
  destruct (snapshots_follow_request _ _ _ HF) as [Hids Hqs].
  split; [done|]. split; [done|]. intros k. apply lookup_decrementAll.
Qed.

Lemma createOrder_quantity_below_one_witness :
  let items := [mkRequestItem 2 (-1)] in
  let res := createOrder Sample.shop 7 50 items None in
  Forall (lineOk (products Sample.shop)) items
  ∧ res.2 = OrderValidationError
  ∧ orders res.1 = orders Sample.shop
  ∧ p_stock <$> products Sample.shop !! 2%N = Some 2
  ∧ p_stock <$> products res.1 !! 2%N = Some 3.
Proof.
  intros items res.
  assert (Forall (lineOk (products Sample.shop)) items) as Hok.
  { constructor; [|constructor]. exists Sample.pass. split; [reflexivity|simpl; lia]. }
  assert (∃ it, it ∈ items ∧ ri_quantity it < 1) as Hlow.
  { exists (mkRequestItem 2 (-1)). split; [left|simpl; lia]. }
  destruct (createOrder_quantity_below_one Sample.shop 7 50 items None Hok Hlow)
    as (Hresp & Horders & _).
  split; [exact Hok|]. split; [exact Hresp|]. split; [exact Horders|].
  split; vm_compute; reflexivity.
Defined.

Lemma fmap_addStock_0 (o : option Product) : addStock 0 <$> o = o.
Proof. destruct o; simpl; [|done]. by rewrite addStock_0. Qed.

Lemma createOrder_touches_stock_only st userId newId items shot :
  categories (createOrder st userId newId items shot).1 = categories st
  ∧ ∀ k, ∃ d, products (createOrder st userId newId items shot).1 !! k
              = addStock d <$> products st !! k.
Proof.
  destruct (createOrder_cases st userId newId items shot) as [[-> _]|(ois & tot & E & Hres)].
  { split; [done|]. intros k. exists 0. by rewrite fmap_addStock_0. }
  simpl in Hres. destruct Hres as [-> | ->]; simpl;
    (split; [done|]; intros k; eexists; apply lookup_decrementAll).
Qed.

(** X4: whatever its outcome, [createOrder] neither adds nor removes a
    product and changes no field of a product but its stock; it leaves
    categories, reviews and every order other than the new one as they
    were. *)
Theorem createOrder_frame st userId newId items shot :
  let res := createOrder st userId newId items shot in
  categories res.1 = categories st
  ∧ reviews res.1 = reviews st
  ∧ (∀ k, k ≠ newId → orders res.1 !! k = orders st !! k)
  ∧ (∀ k, ∃ d, products res.1 !! k = addStock d <$> products st !! k).
Proof.
  intros res. subst res.
  destruct (createOrder_touches_stock_only st userId newId items shot) as [Hc Hp].
  split; [done|]. split; [|split; [|done]].
  - destruct (createOrder_cases st userId newId items shot)
      as [[-> _]|(ois & tot & E & Hres)]; [done|].
    simpl in Hres. by destruct Hres as [-> | ->].
  - intros k Hk.
    destruct (createOrder_cases st userId newId items shot)
      as [[-> _]|(ois & tot & E & Hres)]; [done|].
    simpl in Hres. destruct Hres as [-> | ->]; simpl; [|done].
    by rewrite lookup_insert_ne.
Qed.

(** X5: refunding an order straight after it was created puts every
    product back exactly as it was before the order. *)
Theorem refund_undoes_createOrder st userId newId items shot st' oid o :
  createOrder st userId newId items shot = (st', Created oid o) →
  products (updateOrderStatus st' oid (Some "refunded")).1 = products st
  ∧ o_status <$> orders (updateOrderStatus st' oid (Some "refunded")).1 !! oid
    = Some refunded.
Proof.
  intros H. apply createOrder_created in H as (-> & Ho & -> & _ & _).
  rewrite (refund_from_other_status _ newId o).
  - simpl. split; [|by rewrite lookup_insert_eq].
    apply map_eq. intros k. rewrite lookup_restockAll, lookup_decrementAll.
    destruct (products st !! k) as [p|]; simpl; [|done].
    rewrite addStock_addStock. replace (- qtyOf k (o_items o) + qtyOf k (o_items o)) with 0 by lia.
    by rewrite addStock_0.
  - simpl. apply lookup_insert_eq.
  - by rewrite Ho.
Qed.

Lemma refund_undoes_createOrder_witness :
  ∃ st' o, createOrder Sample.shop 7 50 [mkRequestItem 1 3] None = (st', Created 50 o)
    ∧ products st' ≠ products Sample.shop
    ∧ products (updateOrderStatus st' 50 (Some "refunded")).1 = products Sample.shop.
Proof.
  assert (createOrder Sample.shop 7 50 [mkRequestItem 1 3] None
          = (Sample.placed, Created 50 (Sample.gemOrder paid_pending))) as H
    by (vm_compute; reflexivity).
  exists Sample.placed, (Sample.gemOrder paid_pending).
  split; [exact H|]. split.
  - intros Heq. assert (p_stock <$> products Sample.placed !! 1%N = Some 5) as Hc.
    { rewrite Heq. reflexivity. }
    vm_compute in Hc. discriminate.
  - exact (proj1 (refund_undoes_createOrder _ _ _ _ _ _ _ _ H)).
Defined.

Lemma status_of_name_None s :
  status_of_name s = None → existsb (String.eqb s) validStatuses = false.
Proof.
  unfold status_of_name, validStatuses. simpl.
  destruct (String.eqb s "pending"); [done|].
  destruct (String.eqb s "paid-pending"); [done|].
  destruct (String.eqb s "processing"); [done|].
  destruct (String.eqb s "completed"); [done|].
  destruct (String.eqb s "refunded"); done.
Qed.

(** Every way [updateOrderStatus] can end. *)
Lemma updateOrderStatus_cases st oid status :
  ((updateOrderStatus st oid status).1 = st
   ∧ ((updateOrderStatus st oid status).2 = BadStatus
      ∨ (updateOrderStatus st oid status).2 = OrderNotFound))
  ∨ ∃ o ns, orders st !! oid = Some o ∧ status = Some (status_name ns)
      ∧ updateOrderStatus st oid status
        = (set_orders (insert oid (with_status o ns))
             (if bool_decide (ns = refunded) && negb (bool_decide (o_status o = refunded))
              then set_products (restockAll (o_items o)) st else st),
           Updated oid (with_status o ns)).
Proof.
  destruct status as [s|]; [|left; simpl; auto].
  destruct (status_of_name s) as [ns|] eqn:Es.
  - apply status_of_name_Some in Es as ->.
    destruct (orders st !! oid) as [o|] eqn:Eo.
    + right. exists o, ns. split; [done|]. split; [done|].
      by apply updateOrderStatus_valid.
    + left. unfold updateOrderStatus. rewrite Eo.
      destruct (_ || _); simpl; auto.
  - left. unfold updateOrderStatus. rewrite (status_of_name_None _ Es).
    rewrite orb_true_r. simpl. auto.
Qed.

Lemma updateOrderStatus_touches_stock_only st oid status :
  categories (updateOrderStatus st oid status).1 = categories st
  ∧ ∀ k, ∃ d, products (updateOrderStatus st oid status).1 !! k
              = addStock d <$> products st !! k.
Proof.
  destruct (updateOrderStatus_cases st oid status) as [[-> _]|(o & ns & Ho & _ & ->)].
  { split; [done|]. intros k. exists 0. by rewrite fmap_addStock_0. }
  simpl. destruct (_ && _); simpl; (split; [done|]; intros k).
  - eexists. apply lookup_restockAll.
  - exists 0. by rewrite fmap_addStock_0.
Qed.

(** X6: [updateOrderStatus] changes nothing of an order but its status:
    the stored order keeps its owner, lines, total, screenshot and review
    flag; no order is added or removed, the other orders, the categories
    and the reviews are left as they were, and no product is touched but
    in its stock. *)
Theorem updateOrderStatus_frame st oid status :
  let res := updateOrderStatus st oid status in
  categories res.1 = categories st
  ∧ reviews res.1 = reviews st
  ∧ (∀ k, k ≠ oid → orders res.1 !! k = orders st !! k)
  ∧ (∃ s', orders res.1 !! oid = (λ o, with_status o s') <$> orders st !! oid)
  ∧ (∀ k, ∃ d, products res.1 !! k = addStock d <$> products st !! k).
Proof.
  intros res. subst res.
  destruct (updateOrderStatus_touches_stock_only st oid status) as [Hc Hp].
  split; [done|]. split; [|split; [|split; [|done]]].
  - destruct (updateOrderStatus_cases st oid status) as [[-> _]|(o & ns & Ho & _ & ->)];
      [done|]. simpl. by destruct (_ && _).
  - intros k Hk.
    destruct (updateOrderStatus_cases st oid status) as [[-> _]|(o & ns & Ho & _ & ->)];
      [done|]. simpl. rewrite lookup_insert_ne by done. by destruct (_ && _).
  - destruct (updateOrderStatus_cases st oid status) as [[-> _]|(o & ns & Ho & _ & ->)].
    + destruct (orders st !! oid) as [o|] eqn:Eo.
      * exists (o_status o). simpl. f_equal. by destruct o.
      * by exists pending.
    + exists ns. simpl. by rewrite lookup_insert_eq, Ho.
Qed.

(** X7: no request other than one for the status [refunded] moves any
    stock, whatever the status of the order before. *)
Theorem updateOrderStatus_only_refund_moves_stock st oid status :
  status ≠ Some "refunded" →
  products (updateOrderStatus st oid status).1 = products st.
Proof.
  intros Hs.
  destruct (updateOrderStatus_cases st oid status) as [[-> _]|(o & ns & Ho & -> & ->)];
    [done|].
  simpl. rewrite bool_decide_eq_false_2; [done|]. intros ->. by apply Hs.
Qed.

Lemma updateOrderStatus_only_refund_moves_stock_witness :
  Some "completed" ≠ Some "refunded"
  ∧ o_status <$> orders (updateOrderStatus Sample.placed 50 (Some "completed")).1 !! 50%N
    = Some completed
  ∧ products (updateOrderStatus Sample.placed 50 (Some "completed")).1
    = products Sample.placed.
Proof.
  assert (Some "completed" ≠ Some "refunded") as H by discriminate.
  split; [exact H|]. split; [vm_compute; reflexivity|].
  exact (updateOrderStatus_only_refund_moves_stock Sample.placed 50 _ H).
Defined.

(** X8: [getOrderById] hands an order to a requester without the admin
    flag only if the requester is its owner, and to an admin whenever the
    order exists; a non-admin who is not the owner of an existing order
    whose owner is still stored is answered 403. *)
Theorem getOrderById_access st users user orderId :
  (∀ o owner, getOrderById st users user orderId = Found o owner →
     orders st !! orderId = Some o ∧ owner = users !! o_user o
     ∧ (u_isAdmin user = true ∨ o_user o = u_id user))
  ∧ (∀ o, orders st !! orderId = Some o → u_isAdmin user = true →
       getOrderById st users user orderId = Found o (users !! o_user o))
  ∧ (∀ o, orders st !! orderId = Some o → u_isAdmin user = false →
       is_Some (users !! o_user o) →
       getOrderById st users user orderId
       = if N.eqb (o_user o) (u_id user) then Found o (users !! o_user o) else Forbidden).
Proof.
  unfold getOrderById. split; [|split].
  - intros o owner. destruct (orders st !! orderId) as [o'|]; [|done].
    destruct (u_isAdmin user).
    + intros [= <- <-]. auto.
    + destruct (users !! o_user o') eqn:Eu; [|done].
      destruct (N.eqb_spec (o_user o') (u_id user)); [|done].
      intros [= <- <-]. auto.
  - intros o -> ->. done.
  - intros o -> -> [u ->]. by destruct (N.eqb (o_user o) (u_id user)).
Qed.

Lemma getOrderById_access_witness :
  let users : gmap N User := <[7%N := Sample.alice]> (<[8%N := Sample.bob]> ∅) in
  getOrderById Sample.placed users Sample.bob 50 = Forbidden
  ∧ getOrderById Sample.placed users Sample.alice 50
    = Found (Sample.gemOrder paid_pending) (Some Sample.alice).
Proof.
  intros users.
  destruct (getOrderById_access Sample.placed users Sample.bob 50) as (_ & _ & Hbob).
  destruct (getOrderById_access Sample.placed users Sample.alice 50) as (_ & _ & Halice).
  split.
  - rewrite (Hbob (Sample.gemOrder paid_pending)); [reflexivity|vm_compute; reflexivity|
      reflexivity|vm_compute; eauto].
  - rewrite (Halice (Sample.gemOrder paid_pending)); [reflexivity|vm_compute; reflexivity|
      reflexivity|vm_compute; eauto].
Defined.









End MoreOrderFacts.

(** ** Products *)

Section ProductFacts.

Import Products.

Lemma head_filter_None {A} (f : A → bool) (l : list A) :
  head (List.filter f l) = None → ∀ x, x ∈ l → f x = false.
Proof.
  induction l as [|y l IH]; simpl; intros H x Hx; [by apply elem_of_nil in Hx|].
  destruct (f y) eqn:E; [done|].
  apply elem_of_cons in Hx as [->|Hx]; [done|by apply IH].
Qed.

Lemma head_filter_is_Some {A} (f : A → bool) (l : list A) x :
  x ∈ l → f x = true → is_Some (head (List.filter f l)).
Proof.
  intros Hx Hf. destruct (head (List.filter f l)) eqn:E; [eauto|].
  rewrite (head_filter_None _ _ E x Hx) in Hf. done.
Qed.



Lemma activeOrderOf_true productId o :
  activeOrderOf productId o = true
  ↔ productId ∈ map oi_productId (o_items o)
    ∧ o_status o ≠ completed ∧ o_status o ≠ refunded.
Proof.
  unfold activeOrderOf. rewrite andb_true_iff, existsb_exists. split.
  - intros [(it & Hit & Heq) Hs]. apply N.eqb_eq in Heq as ->. split.
    + apply list_elem_of_In, in_map, Hit.
    + by destruct (o_status o).
  - intros (Hin & Hc & Hr). split.
    + apply list_elem_of_In, in_map_iff in Hin as (it & <- & Hit).
      exists it. split; [done|apply N.eqb_refl].
    + by destruct (o_status o).
Qed.

(** X12: [deleteProduct] removes a product only when no order that is
    neither completed nor refunded names it; it then removes that product
    and every review of it, and nothing else.  When such an order exists
    the answer names one and the store is unchanged, as it is for an
    unknown product. *)
Theorem deleteProduct_outcome st productId :
  let res := deleteProduct st productId in
  (∀ name n, res.2 = ProductDeleted name n →
     (∀ oid o, orders st !! oid = Some o →
        productId ∈ map oi_productId (o_items o) →
        o_status o = completed ∨ o_status o = refunded)
     ∧ products res.1 = delete productId (products st)
     ∧ (∀ k r, reviews res.1 !! k = Some r
               ↔ reviews st !! k = Some r ∧ rv_product r ≠ productId)
     ∧ orders res.1 = orders st ∧ categories res.1 = categories st)
  ∧ (∀ oid, res.2 = InActiveOrder oid →
       res.1 = st
       ∧ ∃ o, orders st !! oid = Some o
           ∧ productId ∈ map oi_productId (o_items o)
           ∧ o_status o ≠ completed ∧ o_status o ≠ refunded)
  ∧ (res.2 = DeleteNotFound → res.1 = st ∧ products st !! productId = None).
Proof.
  intros res. subst res. unfold deleteProduct.
  destruct (products st !! productId) as [product|] eqn:Ep; [|done].
  destruct (head _) as [[oid o]|] eqn:E; simpl.
  - split; [done|]. split; [|done]. intros ? [= <-]. split; [done|].
    apply head_filter_Some in E as [Hin Hact]. apply elem_of_map_to_list in Hin.
    exists o. split; [done|]. by apply activeOrderOf_true.
  - split; [|done]. intros name n _. split.
    + intros oid o Ho Hin.
      pose proof (head_filter_None _ _ E (oid, o)
                    ltac:(by apply elem_of_map_to_list)) as Hno. simpl in Hno.
      destruct (decide (o_status o = completed)) as [|Hc]; [by left|].
      destruct (decide (o_status o = refunded)) as [|Hr]; [by right|].
      assert (activeOrderOf productId o = true) by (by apply activeOrderOf_true).
      congruence.
    + split; [done|]. split; [|done]. intros k r. apply map_lookup_filter_Some.
Qed.

Lemma deleteProduct_outcome_witness :
  (deleteProduct Sample.placed 1).2 = InActiveOrder 50
  ∧ (deleteProduct Sample.placed 1).1 = Sample.placed
  ∧ ∃ name n, (deleteProduct Sample.completedShop 1).2 = ProductDeleted name n
      ∧ products (deleteProduct Sample.completedShop 1).1 !! 1%N = None.
Proof.
  assert ((deleteProduct Sample.placed 1).2 = InActiveOrder 50) as H1
    by (vm_compute; reflexivity).
  assert ((deleteProduct Sample.completedShop 1).2 = ProductDeleted "Gem pack" 0) as H2
    by (vm_compute; reflexivity).
  destruct (deleteProduct_outcome Sample.placed 1) as (_ & Hactive & _).
  destruct (deleteProduct_outcome Sample.completedShop 1) as (Hgone & _ & _).
  split; [exact H1|]. split; [exact (proj1 (Hactive _ H1))|].
  exists "Gem pack", 0. split; [exact H2|].
  destruct (Hgone _ _ H2) as (_ & -> & _). apply lookup_delete_eq.
Defined.

(** X13: once an order is created, none of the products it names can be
    deleted: [deleteProduct] answers with an order that still holds it and
    changes nothing. *)
Theorem ordered_product_cannot_be_deleted st userId newId items shot st' oid o productId :
  Orders.createOrder st userId newId items shot = (st', Orders.Created oid o) →
  productId ∈ map Orders.ri_productId items →
  ∃ holder, deleteProduct st' productId = (st', InActiveOrder holder).
Proof.
  intros Hrun Hin.
  pose proof (createOrder_created _ _ _ _ _ _ _ _ Hrun) as (-> & Ho & Hst & _ & Hc).
  apply checkItems_inr in Hc as (news & Hnews & HF & _). simpl in Hnews.
  destruct (snapshots_follow_request _ _ _ HF) as [Hids _]. rewrite <- Hnews in Hids.
  assert (is_Some (products st !! productId)) as [p Hp].
  { apply list_elem_of_fmap in Hin as (ri & -> & Hri).
    apply list_elem_of_lookup in Hri as [i Hi].
    destruct (Forall2_lookup_l _ _ _ i ri HF Hi) as (? & _ & p & Hp & _). eauto. }
  unfold deleteProduct.
  assert (products st' !! productId = Some (Orders.addStock (- Orders.qtyOf productId (o_items o)) p))
    as ->.
  { rewrite Hst. simpl. by rewrite lookup_decrementAll, Hp. }
  destruct (head_filter_is_Some (λ kv : N * Order, activeOrderOf productId kv.2)
              (map_to_list (orders st')) (newId, o)) as [[holder ho] ->].
  - apply elem_of_map_to_list. rewrite Hst. simpl. apply lookup_insert_eq.
  - simpl. apply activeOrderOf_true. rewrite Hids. split; [done|]. by rewrite Ho.
  - by exists holder.
Qed.

Lemma ordered_product_cannot_be_deleted_witness :
  ∃ holder, deleteProduct Sample.placed 1 = (Sample.placed, InActiveOrder holder).
Proof.
  apply (ordered_product_cannot_be_deleted Sample.shop 7 50 [Orders.mkRequestItem 1 3] None
           Sample.placed 50 (Sample.gemOrder paid_pending)).
  - vm_compute. reflexivity.
  - left.
Defined.

Lemma categoriesResolve_stock st st' :
  categories st' = categories st →
  (∀ k, ∃ d, products st' !! k = Orders.addStock d <$> products st !! k) →
  categoriesResolve st → categoriesResolve st'.
Proof.
  intros Hc Hp Hinv k p Hk. destruct (Hp k) as [d Hd]. rewrite Hd in Hk.
  destruct (products st !! k) as [p0|] eqn:E; [|done]. injection Hk as <-.
  rewrite Hc. simpl. by eapply Hinv.
Qed.

Lemma categoriesResolve_insert_category st k c :
  categoriesResolve st → categoriesResolve (set_categories (insert k c) st).
Proof.
  intros Hinv i p Hp. simpl in *. destruct (Hinv i p Hp) as [c' Hc'].
  destruct (decide (k = p_categoryId p)) as [->|Hne].
  - rewrite lookup_insert_eq. eauto.
  - rewrite lookup_insert_ne by done. eauto.
Qed.

(** X14: every handler that writes products or categories keeps each
    product in a stored category: [createProduct], [deleteProduct],
    [createOrder], [updateOrderStatus], [createCategory],
    [updateCategory] and the cascade of [deleteCategory]. *)
Theorem handlers_keep_products_in_categories st :
  categoriesResolve st →
  (∀ adminId newId rq, categoriesResolve (createProduct st adminId newId rq).1)
  ∧ (∀ productId, categoriesResolve (deleteProduct st productId).1)
  ∧ (∀ userId newId items shot,
       categoriesResolve (Orders.createOrder st userId newId items shot).1)
  ∧ (∀ oid status, categoriesResolve (Orders.updateOrderStatus st oid status).1)
  ∧ (∀ newId rq, categoriesResolve (Categories.createCategory st newId rq).1)
  ∧ (∀ fuel categoryId rq st' r,
       Categories.updateCategory fuel st categoryId rq = Some (st', r) →
       categoriesResolve st')
  ∧ (∀ fuel categoryId st' r,
       Categories.deleteCategory fuel st categoryId = Some (st', r) →
       categoriesResolve st').
Proof.
  intros Hinv. split; [|split; [|split; [|split; [|split; [|split]]]]].
  - intros adminId newId rq. unfold createProduct.
    repeat (case_match; try done); simpl;
      intros k prod; simpl; rewrite lookup_insert; (case_decide; [|apply Hinv]);
      intros [= <-]; simpl; eauto.
  - intros productId. unfold deleteProduct.
    repeat (case_match; try done); simpl;
      intros k prod Hk; simpl in *; apply lookup_delete_Some in Hk as [_ Hk];
      by eapply Hinv.
  - intros userId newId items shot.
    destruct (createOrder_touches_stock_only st userId newId items shot) as [Hc Hp].
    by apply (categoriesResolve_stock st).
  - intros oid status.
    destruct (updateOrderStatus_touches_stock_only st oid status) as [Hc Hp].
    by apply (categoriesResolve_stock st).
  - intros newId rq. unfold Categories.createCategory.
    repeat (case_match; try done); by apply categoriesResolve_insert_category.
  - intros fuel categoryId rq st' r. unfold Categories.updateCategory.
    repeat (case_match; try done); intros [= <- _]; try done;
      by apply categoriesResolve_insert_category.
  - intros fuel categoryId st' r. unfold Categories.deleteCategory.
    destruct (categories st !! categoryId); [|by intros [= <- _]].
    destruct (Categories.getAllDescendantIds _ _ _) as [l|]; [|done].
    intros [= <- _] k p. simpl. intros [Hk Hout]%map_lookup_filter_Some. simpl in Hout.
    destruct (Hinv k p Hk) as [cat Hcat]. exists cat.
    apply map_lookup_filter_Some. split; [done|]. simpl. done.
Qed.

Lemma sample_catalog_resolves : categoriesResolve Sample.catalog.
Proof.
  intros k p. unfold Sample.catalog; simpl.
  repeat (rewrite lookup_insert; case_decide; [intros [= <-]; vm_compute; eauto|]).
  by rewrite lookup_empty.
Qed.

Lemma handlers_keep_products_in_categories_witness :
  categoriesResolve Sample.catalog
  ∧ ∃ st' r, Categories.deleteCategory 5 Sample.catalog 11 = Some (st', r)
      ∧ dom (products st') = {[1%N; 3%N]}
      ∧ categoriesResolve st'.
Proof.
  split; [exact sample_catalog_resolves|].
  destruct (handlers_keep_products_in_categories Sample.catalog sample_catalog_resolves)
    as (_ & _ & _ & _ & _ & _ & Hdelete).
  destruct (Categories.deleteCategory 5 Sample.catalog 11) as [[st' r]|] eqn:E;
    [|vm_compute in E; discriminate].
  exists st', r. split; [reflexivity|]. split.
  - vm_compute in E. injection E as <- _. vm_compute. reflexivity.
  - exact (Hdelete 5%nat 11%N st' r E).
Defined.

End ProductFacts.

(** ** Category tree *)

Section MoreCategoryFacts.

Import Categories.









(** X18: when a category that lies on a cycle of [parentId] links is the
    one to delete, or sits below it, [deleteCategory] never answers:
    whatever the fuel, the collection of the descendants does not finish,
    and nothing is deleted. *)
Theorem deleteCategory_never_finishes_on_cycle fuel st C x :
  is_Some (categories st !! C) →
  inSubtree (categories st) C x →
  descendant (categories st) x x →
  deleteCategory fuel st C = None.
Proof.
  intros [cat Hcat] Hx Hcyc. unfold deleteCategory. rewrite Hcat.
  by rewrite (getAllDescendantIds_cycle fuel _ C x Hx Hcyc).
Qed.

Lemma deleteCategory_never_finishes_on_cycle_witness :
  descendant Sample.loop 1 1
  ∧ ∀ fuel, deleteCategory fuel (mkStore ∅ ∅ Sample.loop ∅) 1 = None.
Proof.
  assert (descendant Sample.loop 1 1) as Hcyc.
  { apply (desc_deeper _ 1 2 1).
    - exists (mkCategory "B" (Some 1%N) "" ""). split; reflexivity.
    - apply desc_child. exists (mkCategory "A" (Some 2%N) "" ""). split; reflexivity. }
  split; [exact Hcyc|]. intros fuel.
  apply (deleteCategory_never_finishes_on_cycle fuel (mkStore ∅ ∅ Sample.loop ∅) 1 1).
  - vm_compute. eauto.
  - by left.
  - exact Hcyc.
Defined.



Lemma deleteMany_count {A} (P : N * A → Prop) `{!∀ x, Decision (P x)} (m : gmap N A) :
  Z.of_nat (size m) = Z.of_nat (size (deleteMany P m).1) + (deleteMany P m).2.
Proof.
  unfold deleteMany. simpl.
  rewrite <- (map_filter_union_complement P m) at 1.
  rewrite map_size_disj_union by apply map_disjoint_filter_complement. lia.
Qed.

(** X20: the numbers in the answer of [deleteCategory] are exact: the
    store holds as many categories fewer as the subcategories counted plus
    the category itself, and as many products fewer as the products
    counted; the count of subcategories is never negative. *)
Theorem deleteCategory_counts fuel st categoryId st' name subcategories deletedProducts :
  deleteCategory fuel st categoryId
  = Some (st', Deleted name subcategories deletedProducts) →
  (∃ category, categories st !! categoryId = Some category ∧ name = c_name category)
  ∧ Z.of_nat (size (categories st))
    = Z.of_nat (size (categories st')) + subcategories + 1
  ∧ Z.of_nat (size (products st)) = Z.of_nat (size (products st')) + deletedProducts
  ∧ 0 <= subcategories
  ∧ 0 <= deletedProducts.
Proof.
  unfold deleteCategory.
  destruct (categories st !! categoryId) as [category|] eqn:Ec; [|done].
  destruct (getAllDescendantIds fuel (categories st) categoryId) as [l|]; [|done].
  intros [= <- <- <- <-]. cbn [products categories].
  split; [by exists category|].
  pose proof (deleteMany_count (λ kv : N * Category, kv.1 ∈ categoryId :: l) (categories st))
    as Hc.
  pose proof (deleteMany_count (λ kv : N * Product, p_categoryId kv.2 ∈ categoryId :: l)
                (products st)) as Hp.
  unfold deleteMany in Hc, Hp. simpl in Hc, Hp.
  assert (size (filter (λ kv : N * Category, kv.1 ∈ categoryId :: l) (categories st)) ≠ 0%nat).
  { apply (map_size_ne_0_lookup_2 _ categoryId). exists category.
    apply map_lookup_filter_Some. split; [done|]. simpl. left. }
  unfold deleteMany. simpl. lia.
Qed.

Lemma deleteCategory_counts_witness :
  ∃ st', fst <$> deleteCategory 5 Sample.catalog 11 = Some st'
    ∧ size (categories st') = 2%nat ∧ size (products st') = 2%nat.
Proof.
  destruct (deleteCategory 5 Sample.catalog 11) as [[st' r]|] eqn:E;
    [|vm_compute in E; discriminate].
  assert (r = Deleted "Brawl" 1 2) as -> by (vm_compute in E; congruence).
  destruct (deleteCategory_counts _ _ _ _ _ _ _ E) as (_ & Hc & Hp & _).
  exists st'. split; [reflexivity|].
  change (size (categories Sample.catalog)) with 4%nat in Hc.
  change (size (products Sample.catalog)) with 4%nat in Hp.
  split; lia.
Defined.

End MoreCategoryFacts.


(** ** Reviews *)

Section MoreReviewFacts.

Import Reviews.

(** Every way [createReview] can end. *)
Lemma createReview_cases strictQuery st user newId rq :
  ((createReview strictQuery st user newId rq).1 = st
   ∧ ∀ id r, (createReview strictQuery st user newId rq).2 ≠ Created id r)
  ∨ ∃ productId orderId rating o,
      rq_productId rq = Some productId ∧ rq_orderId rq = Some orderId
      ∧ rq_rating rq = Some rating
      ∧ orders st !! orderId = Some o
      ∧ o_reviewSubmitted o = false
      ∧ Review_findOne productId (u_id user) (reviews st) = None
      ∧ let review :=
          mkReview (u_id user) productId orderId
            (orElse (u_firstName user) (orElse (u_username user) "Аноним"))
            rating (trim (default "" (rq_text rq))) in
        createReview strictQuery st user newId rq
        = (set_orders (insert orderId (markReviewed o))
             (set_reviews (insert newId review) st),
           Created newId review).
Proof.
  unfold createReview.
  destruct (rq_productId rq) as [pid|]; [|by left].
  destruct (rq_orderId rq) as [oid|]; [|by left].
  destruct (rq_rating rq) as [q|]; [|by left].
  destruct (Qzerob q); [by left|].
  destruct (Qltb q 1 || Qltb 5 q); [by left|].
  destruct (products st !! pid); [|by left].
  destruct (Order_findOne _ _ _) as [[k o]|] eqn:E; [|by left].
  destruct (o_reviewSubmitted o) eqn:Hsub; [by left|].
  destruct (Review_findOne _ _ _) eqn:Er; [by left|].
  right. apply head_filter_Some in E as [Hin Hm]. apply elem_of_map_to_list in Hin.
  rewrite eligibility_query in Hm. apply andb_prop in Hm as [Hk _].
  cbn [fst snd] in Hk. apply N.eqb_eq in Hk. subst k.
  exists pid, oid, q, o. done.
Qed.

(** No review is created under an order that already carries the review
    flag. *)
Lemma createReview_flagged_order strictQuery st user newId rq orderId o :
  rq_orderId rq = Some orderId → orders st !! orderId = Some o →
  o_reviewSubmitted o = true →
  ∀ id r, (createReview strictQuery st user newId rq).2 ≠ Created id r.
Proof.
  intros Hrq Ho Hflag.
  destruct (createReview_cases strictQuery st user newId rq)
    as [[_ H]|(pid & oid & q & o' & _ & Hoid & _ & Ho' & Hflag' & _)]; [done|].
  congruence.
Qed.

(** X21: under an order that does not exist or is not completed, no review
    is created and the store is left as it was, whatever the rating, the
    text and the requester. *)
Theorem createReview_needs_completed_order strictQuery st user newId rq orderId :
  rq_orderId rq = Some orderId →
  (∀ o, orders st !! orderId = Some o → o_status o ≠ completed) →
  (createReview strictQuery st user newId rq).1 = st
  ∧ ∀ id r, (createReview strictQuery st user newId rq).2 ≠ Created id r.
Proof.
  intros Hrq Hstatus.
  destruct (createReview_cases strictQuery st user newId rq)
    as [H|(pid & oid & q & o & _ & Hoid & _ & Ho & _ & _ & Hrun)]; [done|].
  exfalso. simpl in Hrun.
  assert (oid = orderId) as -> by congruence.
  destruct strictQuery.
  - destruct (createReview_created_checks st user newId rq _ _ (f_equal snd Hrun))
      as (pid' & oid' & o' & _ & Hoid' & Ho' & Hc & _).
    assert (oid' = orderId) as -> by congruence.
    by apply (Hstatus o').
  - destruct (createReview_filter_kept_never_creates st user newId rq) as [H|[H|[H|H]]];
      rewrite Hrun in H; done.
Qed.

Lemma createReview_needs_completed_order_witness :
  let rq := mkRequest (Some 1%N) (Some 50%N) (Some (5 # 1)%Q) None in
  (createReview true Sample.processingShop Sample.alice 900 rq).1 = Sample.processingShop
  ∧ ∀ id r, (createReview true Sample.processingShop Sample.alice 900 rq).2 ≠ Created id r.
Proof.
  intros rq.
  apply (createReview_needs_completed_order true Sample.processingShop Sample.alice 900 rq 50).
  - reflexivity.
  - intros o Ho.
    assert (orders Sample.processingShop !! 50%N = Some (Sample.gemOrder processing)) as Hs
      by (vm_compute; reflexivity).
    rewrite Hs in Ho. injection Ho as <-. discriminate.
Defined.





Lemma deleteReview_store st reviewId :
  (deleteReview st reviewId).1 = set_reviews (delete reviewId) st.
Proof.
  unfold deleteReview. destruct (reviews st !! reviewId) eqn:E; [done|].
  destruct st as [ps os cs rs]. unfold set_reviews. simpl in *.
  f_equal. symmetry. by apply delete_id.
Qed.

(** X24: an order is reviewed at most once, also after the review is
    deleted: once [createReview] has created a review under an order, no
    later [createReview] naming that order creates one, whoever asks and
    for whatever product, not even after [deleteReview] has removed the
    first review, since the flag on the order stays. *)
Theorem order_reviewed_once strictQuery st user newId rq st' id r :
  createReview strictQuery st user newId rq = (st', Created id r) →
  ∀ reviewId strictQuery2 user2 newId2 rq2,
    rq_orderId rq2 = rq_orderId rq →
    (∀ id2 r2, (createReview strictQuery2 st' user2 newId2 rq2).2 ≠ Created id2 r2)
    ∧ (deleteReview st' reviewId).1 = set_reviews (delete reviewId) st'
    ∧ (∀ id2 r2, (createReview strictQuery2 (deleteReview st' reviewId).1 user2 newId2 rq2).2
                 ≠ Created id2 r2).
Proof.
  intros Hrun reviewId strictQuery2 user2 newId2 rq2 Hsame.
  destruct (createReview_cases strictQuery st user newId rq)
    as [[_ Hno]|(pid & oid & q & o & _ & Hoid & _ & Ho & _ & _ & Hrun')].
  { rewrite Hrun in Hno. by destruct (Hno id r). }
  simpl in Hrun'. rewrite Hrun in Hrun'. injection Hrun' as -> _ _.
  rewrite Hoid in Hsame.
  split; [|split; [apply deleteReview_store|]].
  - apply (createReview_flagged_order _ _ _ _ _ oid (markReviewed o));
      [done|simpl; apply lookup_insert_eq|done].
  - rewrite deleteReview_store.
    apply (createReview_flagged_order _ _ _ _ _ oid (markReviewed o));
      [done|simpl; apply lookup_insert_eq|done].
Qed.

Lemma order_reviewed_once_witness :
  let rq := mkRequest (Some 1%N) (Some 50%N) (Some (4 # 1)%Q) None in
  let st' := (createReview true Sample.completedShop Sample.alice 900 rq).1 in
  createReview true Sample.completedShop Sample.alice 900 rq
  = (st', Created 900 (mkReview 7 1 50 "Alice" (4 # 1) ""))
  ∧ reviews (deleteReview st' 900).1 = ∅
  ∧ ∀ id2 r2, (createReview true (deleteReview st' 900).1 Sample.alice 901 rq).2
              ≠ Created id2 r2.
Proof.
  intros rq st'.
  assert (createReview true Sample.completedShop Sample.alice 900 rq
          = (st', Created 900 (mkReview 7 1 50 "Alice" (4 # 1) ""))) as Hrun
    by (vm_compute; reflexivity).
  split; [exact Hrun|]. split; [vm_compute; reflexivity|].
  exact (proj2 (proj2 (order_reviewed_once true Sample.completedShop Sample.alice 900 rq
                         st' 900 _ Hrun 900%N true Sample.alice 901%N rq eq_refl))).
Defined.




End MoreReviewFacts.

(** ** Telegram login *)

Section MoreAuthFacts.

Import Auth.

Lemma strLe_trans a b c : strLe a b → strLe b c → strLe a c.
Proof.
  unfold strLe, String.leb. revert b c.
  induction a as [|x a IH]; intros [|y b] [|z c]; simpl; try done.
  unfold Ascii.compare.
  destruct (N.compare_spec (N_of_ascii x) (N_of_ascii y)) as [Hxy|Hxy|Hxy];
    destruct (N.compare_spec (N_of_ascii y) (N_of_ascii z)) as [Hyz|Hyz|Hyz];
    destruct (N.compare_spec (N_of_ascii x) (N_of_ascii z)) as [Hxz|Hxz|Hxz];
    try done; try lia.
  apply IH.
Qed.

Lemma sorted_head_least x l y :
  Sorted strLe (x :: l) → y ∈ x :: l → strLe x y.
Proof.
  intros Hs Hy. apply Sorted_StronglySorted in Hs; [|intros ? ? ?; apply strLe_trans].
  inversion Hs as [|? ? _ Hall]; subst.
  apply elem_of_cons in Hy as [->|Hy].
  - unfold strLe. destruct (String.leb_total x x); done.
  - rewrite Forall_forall in Hall. by apply Hall.
Qed.

(** Two sorted lists with the same elements are the same list. *)
Lemma sorted_perm_unique l1 l2 :
  Sorted strLe l1 → Sorted strLe l2 → Permutation l1 l2 → l1 = l2.
Proof.
  revert l2. induction l1 as [|x l1 IH]; intros l2 H1 H2 Hp.
  - by apply Permutation_nil in Hp.
  - destruct l2 as [|y l2]; [by apply Permutation_sym, Permutation_nil in Hp|].
    assert (x = y) as ->.
    { apply String.leb_antisym.
      - apply (sorted_head_least x l1 y H1). rewrite Hp. left.
      - apply (sorted_head_least y l2 x H2). rewrite <- Hp. left. }
    f_equal. apply IH.
    + by inversion H1.
    + by inversion H2.
    + by apply Permutation_cons_inv in Hp.
Qed.

Lemma sort_permutation l1 l2 : Permutation l1 l2 → sort l1 = sort l2.
Proof.
  intros Hp. apply sorted_perm_unique; [apply sort_sorted..|].
  by rewrite !sort_perm.
Qed.

(** X26: the order in which the fields of the payload are sent does not
    matter: two payloads that declare the same hash and carry the same
    other pairs, in any order, get the same verdict. *)
Theorem validateTelegramData_ignores_field_order init1 init2 botToken :
  get "hash" (URLSearchParams init1) = get "hash" (URLSearchParams init2) →
  Permutation (List.filter notHash (URLSearchParams init1))
              (List.filter notHash (URLSearchParams init2)) →
  validateTelegramData init1 botToken = validateTelegramData init2 botToken.
Proof.
  intros Hhash Hp. unfold validateTelegramData, dataCheckString.
  rewrite Hhash. rewrite (sort_permutation _ _ (Permutation_map pairString Hp)). done.
Qed.

Lemma validateTelegramData_ignores_field_order_witness :
  Sample.initData ≠ Sample.initDataReordered
  ∧ validateTelegramData Sample.initDataReordered Sample.botToken = true.
Proof.
  split; [discriminate|].
  rewrite <- (validateTelegramData_ignores_field_order
                Sample.initData Sample.initDataReordered Sample.botToken).
  - vm_compute. reflexivity.
  - vm_compute. reflexivity.
  - vm_compute. apply perm_swap.
Defined.

Lemma compress_length hs block : length (compress hs block) = length hs.
Proof.
  unfold compress.
  do 8 (destruct hs as [|? hs]; [done|]). destruct hs as [|? hs]; [|done].
  by destruct (fold_left _ _ _) as [[[[[[[? ?] ?] ?] ?] ?] ?] ?].
Qed.

Lemma hashBlocks_length n hs words : length (hashBlocks n hs words) = length hs.
Proof.
  revert hs words. induction n as [|n IH]; intros hs words; simpl; [done|].
  by rewrite IH, compress_length.
Qed.

Lemma sha256_length msg : length (sha256 msg) = 32%nat.
Proof.
  unfold sha256.
  assert (∀ l : list N, length (flat_map be32 l) = (4 * length l)%nat) as Hflat.
  { induction l as [|w l IH]; simpl; [done|]. rewrite IH. lia. }
  rewrite Hflat, hashBlocks_length. reflexivity.
Qed.

Lemma hex_length bytes : String.length (hex bytes) = (2 * length bytes)%nat.
Proof. induction bytes as [|b l IH]; simpl; [done|]. rewrite IH. lia. Qed.

(** X25: a payload is accepted only if it declares a hash, and only one of
    exactly 64 characters, the length of a SHA-256 digest in hex: a
    missing, empty, shortened or padded hash is always rejected. *)
Theorem validateTelegramData_needs_full_hash initData botToken :
  validateTelegramData initData botToken = true →
  ∃ hash, get "hash" (URLSearchParams initData) = Some hash
    ∧ String.length hash = 64%nat.
Proof.
  unfold validateTelegramData.
  destruct (get "hash" (URLSearchParams initData)) as [hash|]; [|done].
  destruct (String.eqb hash ""); [done|].
  intros H%String.eqb_eq. exists hash. split; [done|].
  rewrite <- H, hex_length. unfold hmacSha256. by rewrite sha256_length.
Qed.

Lemma validateTelegramData_needs_full_hash_witness :
  ∃ hash, get "hash" (URLSearchParams Sample.initData) = Some hash
    ∧ String.length hash = 64%nat.
Proof.
  apply (validateTelegramData_needs_full_hash Sample.initData Sample.botToken).
  vm_compute. reflexivity.
Defined.

End MoreAuthFacts.
